(** * The documentation site's theme configuration (theme.config.tsx)

    The program text of the site itself is the module [theme.config.tsx]:
    two imports, one [const] holding an object literal and a default
    export.  The module is embedded as a program of a small
    state-and-error monad over the JavaScript store: objects live in a heap
    and are passed around by reference, the module has a scope of bindings
    and a table of exports.  Object identity is kept because the module
    exports the very object it binds to [config].

    The second part of the file embeds the workflow handlers that the page
    [pages/quick-start/examples.mdx] gives in full. *)

From stdpp Require Import base option gmap strings list fin_maps numbers pretty.
From Stdlib Require Import Ascii String QArith.
Local Close Scope Q_scope.

Local Open Scope string_scope.
#[local] Set Warnings "-register-all".

(** ** Values and the store *)

Definition loc := positive.

(** A JavaScript value: a primitive, a function or a reference to an object
    of the heap. *)
Inductive value : Type :=
  | VUndefined
  | VString (s : string)
  | VFunction (name : string)
  | VRef (l : loc).

(** A heap object is a plain object (own properties in creation order) or a
    React element (its type and its props, the children among them). *)
Inductive cell : Type :=
  | CObject (props : list (string * value))
  | CElement (type : string) (props : list (string * value)).

Inductive js_error : Type :=
  | ReferenceError (name : string)
  | SyntaxError (name : string).

Inductive result (A : Type) : Type :=
  | Ok (a : A)
  | Throw (e : js_error).
Arguments Ok {A} a.
Arguments Throw {A} e.

Record module_state : Type := ModuleState {
  heap : gmap loc cell;
  scope : gmap string value;
  exports : gmap string value;
}.

(** A module is evaluated in a scope of its own with nothing exported yet;
    the heap is whatever the rest of the build has allocated so far. *)
Definition init_state (h : gmap loc cell) : module_state :=
  ModuleState h ∅ ∅.

(** ** The evaluation monad *)

Definition M (A : Type) : Type := module_state → result (A * module_state).

Definition ret {A} (a : A) : M A := λ s, Ok (a, s).

Definition bind {A B} (m : M A) (k : A → M B) : M B :=
  λ s, match m s with
       | Ok (a, s') => k a s'
       | Throw e => Throw e
       end.

Declare Scope js_scope.
Delimit Scope js_scope with js.
Notation "'let*' x := m 'in' k" := (bind m (λ x, k))
  (at level 10, x name, m at level 100, k at level 200) : js_scope.
Notation "m ;;; k" := (bind m (λ _, k))
  (at level 100, k at level 200, right associativity) : js_scope.
Local Open Scope js_scope.

(** ** Operations of the language that the module uses *)

(** The location a new object gets in heap [h]. *)
Definition new_loc (h : gmap loc cell) : loc := fresh (dom h).

Definition alloc (c : cell) : M value :=
  λ s, let l := new_loc (heap s) in
       Ok (VRef l, ModuleState (<[l := c]> (heap s)) (scope s) (exports s)).

(** A string literal. *)
Definition str (s : string) : M value := ret (VString s).

(** Defining property [k] on a property list: a repeated key keeps its
    place and takes the later value. *)
Fixpoint define_property (k : string) (v : value)
    (ps : list (string * value)) : list (string * value) :=
  match ps with
  | [] => [(k, v)]
  | (k', v') :: ps' =>
      if decide (k' = k) then (k, v) :: ps'
      else (k', v') :: define_property k v ps'
  end.

(** The property definitions of a literal, evaluated left to right. *)
Fixpoint eval_properties (acc : list (string * value))
    (fields : list (string * M value)) : M (list (string * value)) :=
  match fields with
  | [] => ret acc
  | (k, e) :: fields' =>
      let* v := e in eval_properties (define_property k v acc) fields'
  end.

(** An object literal [{ k1: e1, ..., kn: en }]. *)
Definition object_literal (fields : list (string * M value)) : M value :=
  let* ps := eval_properties [] fields in alloc (CObject ps).

(** A JSX element [<type ...props>children</type>], with the meaning React
    gives it: a new element object that records the type and the props;
    the children are the prop [children]. *)
Definition jsx (type : string) (props : list (string * M value)) : M value :=
  let* ps := eval_properties [] props in alloc (CElement type ps).

(** [const x = v] and the binding of an import: a second declaration of a
    name in the same scope is refused. *)
Definition declare_const (x : string) (v : value) : M unit :=
  λ s, match scope s !! x with
       | Some _ => Throw (SyntaxError x)
       | None => Ok (tt, ModuleState (heap s) (<[x := v]> (scope s)) (exports s))
       end.

(** Reading an identifier. *)
Definition get_binding (x : string) : M value :=
  λ s, match scope s !! x with
       | Some v => Ok (v, s)
       | None => Throw (ReferenceError x)
       end.

(** [export default v]. *)
Definition export_default (v : value) : M unit :=
  λ s, match exports s !! "default" with
       | Some _ => Throw (SyntaxError "default")
       | None =>
           Ok (tt, ModuleState (heap s) (scope s) (<["default" := v]> (exports s)))
       end.

(** ** The module theme.config.tsx

    [imports m x] is the value that the module loader supplies for the
    export [x] of module [m].  [DocsThemeConfig] is a type: its import and
    the annotation of [config] are erased and leave nothing to evaluate. *)
Definition theme_config (imports : string → string → value) : M unit :=
  declare_const "React" (imports "react" "default") ;;;
  let* config :=
    object_literal
      [ ("logo", jsx "span" [("children", str "Inngest Core")]);
        ("project",
           object_literal [("link", str "https://github.com/inngest")]);
        ("chat",
           object_literal
             [("link", str "https://discord.com/invite/mPfcyDEdpx")]);
        ("docsRepositoryBase", str "https://github.com/inngest/website");
        ("footer", object_literal [("content", str "Inngest Docs")]) ] in
  declare_const "config" config ;;;
  let* exported := get_binding "config" in
  export_default exported.

(** ** Reading a value out of the store *)

(** The store-free picture of a value: what one sees by following every
    reference. *)
Inductive tree : Type :=
  | TUndefined
  | TString (s : string)
  | TFunction (name : string)
  | TObject (props : list (string * tree))
  | TElement (type : string) (props : list (string * tree)).

Fixpoint map_properties {A B} (f : A → option B)
    (ps : list (string * A)) : option (list (string * B)) :=
  match ps with
  | [] => Some []
  | (k, a) :: ps' =>
      match f a, map_properties f ps' with
      | Some b, Some bs => Some ((k, b) :: bs)
      | _, _ => None
      end
  end.

(** Following references at most [n] deep; [None] on a dangling reference
    or when [n] is used up. *)
Fixpoint reify (n : nat) (h : gmap loc cell) (v : value) : option tree :=
  match v with
  | VUndefined => Some TUndefined
  | VString s => Some (TString s)
  | VFunction f => Some (TFunction f)
  | VRef l =>
      match n with
      | O => None
      | S n' =>
          match h !! l with
          | Some (CObject ps) => TObject <$> map_properties (reify n' h) ps
          | Some (CElement ty ps) =>
              TElement ty <$> map_properties (reify n' h) ps
          | None => None
          end
      end
  end.

(** The default export of the module as the rest of the build sees it, for
    the loader's [imports] and a heap [h] to start from. *)
Definition exported_config (imports : string → string → value)
    (h : gmap loc cell) : option tree :=
  match theme_config imports (init_state h) with
  | Ok (_, s) =>
      match exports s !! "default" with
      | Some v => reify (S (size (heap s))) (heap s) v
      | None => None
      end
  | Throw _ => None
  end.

(** ** Looking into a tree *)

Definition own_properties (t : tree) : list (string * tree) :=
  match t with
  | TObject ps | TElement _ ps => ps
  | _ => []
  end.

(** [Object.keys]. *)
Definition keys (t : tree) : list string := (own_properties t).*1.

Fixpoint assoc (k : string) (ps : list (string * tree)) : option tree :=
  match ps with
  | [] => None
  | (k', t) :: ps' => if decide (k' = k) then Some t else assoc k ps'
  end.

(** Property access [t.k]. *)
Definition get (k : string) (t : tree) : option tree :=
  assoc k (own_properties t).

(** A chain of accesses [t.k1.k2...]. *)
Fixpoint get_path (path : list string) (t : tree) : option tree :=
  match path with
  | [] => Some t
  | k :: path' =>
      match get k t with
      | Some t' => get_path path' t'
      | None => None
      end
  end.

(** [typeof], with React elements told apart from plain objects. *)
Inductive kind : Type :=
  | KUndefined | KString | KFunction | KObject | KElement.

Definition kind_of (t : tree) : kind :=
  match t with
  | TUndefined => KUndefined
  | TString _ => KString
  | TFunction _ => KFunction
  | TObject _ => KObject
  | TElement _ _ => KElement
  end.

(** A scalar is a value that is not an object of any sort. *)
Definition is_scalar (t : tree) : bool :=
  match t with
  | TUndefined | TString _ => true
  | TFunction _ | TObject _ | TElement _ _ => false
  end.

(** ** The run of the module, step by step *)

Section Run.
Variable imports : string → string → value.
Variable h : gmap loc cell.

Definition logo_cell : cell :=
  CElement "span" [("children", VString "Inngest Core")].
Definition project_cell : cell :=
  CObject [("link", VString "https://github.com/inngest")].
Definition chat_cell : cell :=
  CObject [("link", VString "https://discord.com/invite/mPfcyDEdpx")].
Definition footer_cell : cell :=
  CObject [("content", VString "Inngest Docs")].

Definition l_logo : loc := new_loc h.
Definition h_logo : gmap loc cell := <[l_logo := logo_cell]> h.
Definition l_project : loc := new_loc h_logo.
Definition h_project : gmap loc cell := <[l_project := project_cell]> h_logo.
Definition l_chat : loc := new_loc h_project.
Definition h_chat : gmap loc cell := <[l_chat := chat_cell]> h_project.
Definition l_footer : loc := new_loc h_chat.
Definition h_footer : gmap loc cell := <[l_footer := footer_cell]> h_chat.
Definition l_config : loc := new_loc h_footer.

Definition config_cell : cell :=
  CObject
    [ ("logo", VRef l_logo);
      ("project", VRef l_project);
      ("chat", VRef l_chat);
      ("docsRepositoryBase", VString "https://github.com/inngest/website");
      ("footer", VRef l_footer) ].

Definition h_config : gmap loc cell := <[l_config := config_cell]> h_footer.

(** The state the module leaves behind. *)
Definition final_state : module_state :=
  ModuleState h_config
    (<["config" := VRef l_config]>
       (<["React" := imports "react" "default"]> ∅))
    (<["default" := VRef l_config]> ∅).

End Run.

(** The object literal of the module, every reference followed. *)
Definition config_tree : tree :=
  TObject
    [ ("logo", TElement "span" [("children", TString "Inngest Core")]);
      ("project", TObject [("link", TString "https://github.com/inngest")]);
      ("chat",
         TObject [("link", TString "https://discord.com/invite/mPfcyDEdpx")]);
      ("docsRepositoryBase", TString "https://github.com/inngest/website");
      ("footer", TObject [("content", TString "Inngest Docs")]) ].

(** ** Shapes of configuration values *)

(** Every value bound to a top-level key is a scalar. *)
Definition flat (t : tree) : Prop :=
  Forall (λ kv : string * tree, is_scalar kv.2 = true) (own_properties t).

(** The kind of the value bound to each top-level key, in key order. *)
Definition kinds (t : tree) : list (string * kind) :=
  (λ kv : string * tree, (kv.1, kind_of kv.2)) <$> own_properties t.

(** A plain object all of whose values are strings. *)
Definition holds_strings (t : tree) : Prop :=
  kind_of t = KObject ∧
  Forall (λ kv : string * tree, kind_of kv.2 = KString) (own_properties t).

(** The keys of [t] that are bound to a scalar. *)
Definition scalar_keys (t : tree) : list string :=
  (filter (λ kv : string * tree, is_scalar kv.2 = true) (own_properties t)).*1.

(** No function anywhere in the value. *)
Fixpoint no_function (t : tree) : bool :=
  match t with
  | TUndefined | TString _ => true
  | TFunction _ => false
  | TObject ps | TElement _ ps =>
      forallb (λ kv : string * tree, let '(_, t') := kv in no_function t') ps
  end.

(** The object without its property [k]. *)
Definition without (k : string) (t : tree) : tree :=
  match t with
  | TObject ps => TObject (filter (λ kv : string * tree, kv.1 ≠ k) ps)
  | TElement ty ps => TElement ty (filter (λ kv : string * tree, kv.1 ≠ k) ps)
  | _ => t
  end.

(** The string at the end of a chain of accesses. *)
Definition get_string (path : list string) (t : tree) : option string :=
  match get_path path t with
  | Some (TString s) => Some s
  | _ => None
  end.

(** The text of an element whose only child is a string. *)
Definition text_content (t : tree) : option string :=
  match t with
  | TElement _ ps =>
      match assoc "children" ps with
      | Some (TString s) => Some s
      | _ => None
      end
  | _ => None
  end.

(** The tag of an element. *)
Definition element_type (t : tree) : option string :=
  match t with
  | TElement ty _ => Some ty
  | _ => None
  end.

(** ** Absolute URLs

    The reading of "well-formed absolute URL" used for the link fields: a
    scheme, the separator [://], a host name that is not empty, and then
    nothing or a path, query or fragment of visible characters. *)

Record url : Type := Url {
  url_scheme : string;
  url_host : string;
  url_rest : string;
}.

Definition in_range (lo hi : nat) (c : ascii) : bool :=
  (lo <=? nat_of_ascii c)%nat && (nat_of_ascii c <=? hi)%nat.

Definition is_alpha (c : ascii) : bool := in_range 65 90 c || in_range 97 122 c.
Definition is_digit (c : ascii) : bool := in_range 48 57 c.
Definition is_one_of (cs : list ascii) (c : ascii) : bool :=
  bool_decide (c ∈ cs).

Definition is_scheme_char (c : ascii) : bool :=
  is_alpha c || is_digit c || is_one_of ["+"; "-"; "."]%char c.
Definition is_host_char (c : ascii) : bool :=
  is_alpha c || is_digit c || is_one_of ["-"; "."]%char c.
Definition is_visible (c : ascii) : bool := in_range 33 126 c.

(** The longest prefix of characters that satisfy [p], and what follows. *)
Fixpoint span (p : ascii → bool) (s : string) : string * string :=
  match s with
  | String c s' =>
      if p c then let '(a, b) := span p s' in (String c a, b) else ("", s)
  | EmptyString => ("", "")
  end.

Fixpoint all_chars (p : ascii → bool) (s : string) : bool :=
  match s with
  | String c s' => p c && all_chars p s'
  | EmptyString => true
  end.

Definition rest_ok (s : string) : bool :=
  match s with
  | EmptyString => true
  | String c _ => is_one_of ["/"; "?"; "#"]%char c && all_chars is_visible s
  end.

Definition parse_url (s : string) : option url :=
  let '(sch, after) := span is_scheme_char s in
  match sch, after with
  | String c _, String ":" (String "/" (String "/" s')) =>
      let '(host, rest) := span is_host_char s' in
      if is_alpha c && negb (bool_decide (host = "")) && rest_ok rest
      then Some (Url sch host rest)
      else None
  | _, _ => None
  end.

(** The URL held by a link field. *)
Definition get_url (path : list string) (t : tree) : option url :=
  match get_string path t with
  | Some s => parse_url s
  | None => None
  end.

(** ** JSON

    The part of JSON that plain configuration data needs: strings and
    objects.  [json_stringify] writes the text [JSON.stringify] writes for
    such data and [json_parse] reads JSON text of that part back (objects
    without repeated keys). *)

Inductive json : Type :=
  | JString (s : string)
  | JObject (members : list (string * json)).

(** The JSON value of a tree made of strings inside plain objects; [None]
    for anything else (an element, a function, [undefined]). *)
Fixpoint plain_data (t : tree) : option json :=
  match t with
  | TString s => Some (JString s)
  | TObject ps => JObject <$> map_properties plain_data ps
  | _ => None
  end.

Fixpoint of_json (j : json) : tree :=
  match j with
  | JString s => TString s
  | JObject ms => TObject (map (λ kj : string * json, (kj.1, of_json kj.2)) ms)
  end.

Definition quote : ascii := "034"%char.
Definition backslash : ascii := "092"%char.

Definition hex_digit (n : nat) : ascii :=
  if (n <? 10)%nat then ascii_of_nat (48 + n) else ascii_of_nat (87 + n).

(** The escape of one character inside a JSON string. *)
Definition escape_char (c : ascii) : string :=
  let n := nat_of_ascii c in
  if bool_decide (c = quote) then String backslash (String quote "")
  else if bool_decide (c = backslash) then String backslash (String backslash "")
  else if bool_decide (n = 8) then String backslash "b"
  else if bool_decide (n = 9) then String backslash "t"
  else if bool_decide (n = 10) then String backslash "n"
  else if bool_decide (n = 12) then String backslash "f"
  else if bool_decide (n = 13) then String backslash "r"
  else if (n <? 32)%nat then
    String backslash
      (String "u" (String "0" (String "0"
        (String (hex_digit (n / 16)) (String (hex_digit (n mod 16)) "")))))
  else String c "".

Fixpoint escape (s : string) : string :=
  match s with
  | EmptyString => ""
  | String c s' => escape_char c +:+ escape s'
  end.

Definition json_string (s : string) : string :=
  String quote (escape s +:+ String quote "").

Fixpoint json_stringify (j : json) : string :=
  match j with
  | JString s => json_string s
  | JObject ms =>
      "{" +:+
      String.concat ","
        (map (λ kj : string * json,
                json_string kj.1 +:+ ":" +:+ json_stringify kj.2) ms)
      +:+ "}"
  end.

Definition is_space (c : ascii) : bool :=
  is_one_of [ascii_of_nat 32; ascii_of_nat 9; ascii_of_nat 10; ascii_of_nat 13] c.

Fixpoint skip_space (s : string) : string :=
  match s with
  | String c s' => if is_space c then skip_space s' else s
  | EmptyString => ""
  end.

Definition hex_value (c : ascii) : option nat :=
  let n := nat_of_ascii c in
  if in_range 48 57 c then Some (n - 48)
  else if in_range 97 102 c then Some (n - 87)
  else if in_range 65 70 c then Some (n - 55)
  else None.

(** The characters of a JSON string after its opening quote, unescaped, and
    the text after its closing quote. *)
Fixpoint parse_string_body (s : string) : option (string * string) :=
  match s with
  | EmptyString => None
  | String c s' =>
      if bool_decide (c = quote) then Some ("", s')
      else if bool_decide (c = backslash) then
        match s' with
        | String "u" (String "0" (String "0" (String a (String b s'')))) =>
            match hex_value a, hex_value b, parse_string_body s'' with
            | Some x, Some y, Some (body, rest) =>
                Some (String (ascii_of_nat (16 * x + y)) body, rest)
            | _, _, _ => None
            end
        | String e s'' =>
            let unescaped :=
              if bool_decide (e = quote) then Some quote
              else if bool_decide (e = backslash) then Some backslash
              else if bool_decide (e = "/"%char) then Some "/"%char
              else if bool_decide (e = "b"%char) then Some (ascii_of_nat 8)
              else if bool_decide (e = "t"%char) then Some (ascii_of_nat 9)
              else if bool_decide (e = "n"%char) then Some (ascii_of_nat 10)
              else if bool_decide (e = "f"%char) then Some (ascii_of_nat 12)
              else if bool_decide (e = "r"%char) then Some (ascii_of_nat 13)
              else None in
            match unescaped, parse_string_body s'' with
            | Some c', Some (body, rest) => Some (String c' body, rest)
            | _, _ => None
            end
        | EmptyString => None
        end
      else if (nat_of_ascii c <? 32)%nat then None
      else
        match parse_string_body s' with
        | Some (body, rest) => Some (String c body, rest)
        | None => None
        end
  end.

(** A JSON value at the head of [s], and the text that follows it.  Every
    step consumes input, so [fuel] above the length of [s] is enough. *)
Fixpoint parse_value (fuel : nat) (s : string) : option (json * string) :=
  match fuel with
  | O => None
  | S fuel' =>
      match skip_space s with
      | String c s1 =>
          if bool_decide (c = quote) then
            match parse_string_body s1 with
            | Some (body, rest) => Some (JString body, rest)
            | None => None
            end
          else if bool_decide (c = "{"%char) then
            match skip_space s1 with
            | String "}" rest => Some (JObject [], rest)
            | _ =>
                match parse_members fuel' s1 with
                | Some (ms, rest) => Some (JObject ms, rest)
                | None => None
                end
            end
          else None
      | EmptyString => None
      end
  end
with parse_members (fuel : nat) (s : string)
    : option (list (string * json) * string) :=
  match fuel with
  | O => None
  | S fuel' =>
      match skip_space s with
      | String c s1 =>
          if bool_decide (c = quote) then
            match parse_string_body s1 with
            | Some (k, s2) =>
                match skip_space s2 with
                | String ":" s3 =>
                    match parse_value fuel' s3 with
                    | Some (j, s4) =>
                        match skip_space s4 with
                        | String "," s5 =>
                            match parse_members fuel' s5 with
                            | Some (ms, rest) => Some ((k, j) :: ms, rest)
                            | None => None
                            end
                        | String "}" rest => Some ([(k, j)], rest)
                        | _ => None
                        end
                    | None => None
                    end
                | _ => None
                end
            | None => None
            end
          else None
      | EmptyString => None
      end
  end.

Definition json_parse (s : string) : option json :=
  match parse_value (S (String.length s)) s with
  | Some (j, rest) => if bool_decide (skip_space rest = "") then Some j else None
  | None => None
  end.

(** The text of one member and of the members of an object, as
    [json_stringify] lays them out between the braces. *)
Definition member_text (kj : string * json) : string :=
  json_string kj.1 +:+ ":" +:+ json_stringify kj.2.

Definition members_text (ms : list (string * json)) : string :=
  String.concat "," (map member_text ms).

(** * The workflow handlers of the examples page

    [pages/quick-start/examples.mdx] holds handlers written against the
    workflow SDK.  A handler talks to the outside through [step] and
    [logger] only, so it is embedded as a program that asks an environment
    for the outcome of every step call and keeps the log of what happened.
    The environment is arbitrary: it may answer a call by a value or by an
    exception, and its answer may depend on everything that happened
    before. *)

(** Event payloads and step results. *)
Inductive data : Type :=
  | DUndefined
  | DNull
  | DBool (b : bool)
  | DNum (q : Q)
  | DStr (s : string)
  | DNewDate
  | DObj (fields : list (string * data))
  | DArr (items : list data).

(** A thrown [Error]: its message, and whether it is a
    [NonRetriableError]. *)
Record exn : Type := Exn {
  message : string;
  non_retriable : bool;
}.

Inductive level : Type := Info | Warn | Err.

(** The body of a [step.run] callback: one call of a service, unless
    building the arguments already throws.  [DNewDate] among the arguments
    is a [new Date()] that the callback builds when it runs. *)
Inductive callback : Type :=
  | Service (name : string) (arguments : list data)
  | Raises (e : exn).

Inductive call : Type :=
  | Run (id : string) (cb : callback)
  | Sleep (id : string) (duration : string)
  | SendEvent (id : string) (name : string) (payload : data)
  | Invoke (id : string) (function : string) (payload : data)
      (timeout : option string)
  | WaitForEvent (id : string) (event : string) (timeout : string)
      (condition : string).

Inductive outcome : Type :=
  | Returns (d : data)
  | Throws (e : exn).

(** What a run leaves in its log: the step calls with their outcomes and
    the lines written to the logger. *)
Inductive event : Type :=
  | Called (c : call) (o : outcome)
  | Logged (lv : level) (msg : string) (payload : data).

Inductive run_result (A : Type) : Type :=
  | Done (a : A) (tr : list event)
  | Threw (e : exn) (tr : list event)
  | OutOfFuel (tr : list event).
Arguments Done {A} a tr.
Arguments Threw {A} e tr.
Arguments OutOfFuel {A} tr.

Definition environment : Type := list event → call → outcome.

Definition W (A : Type) : Type := environment → list event → run_result A.

Definition wret {A} (a : A) : W A := λ _ tr, Done a tr.

Definition wbind {A B} (m : W A) (k : A → W B) : W B :=
  λ env tr,
    match m env tr with
    | Done a tr' => k a env tr'
    | Threw e tr' => Threw e tr'
    | OutOfFuel tr' => OutOfFuel tr'
    end.

Declare Scope wf_scope.
Delimit Scope wf_scope with wf.
Notation "'let*' x := m 'in' k" := (wbind m (λ x, k))
  (at level 10, x name, m at level 100, k at level 200) : wf_scope.
Notation "m ;;; k" := (wbind m (λ _, k))
  (at level 100, k at level 200, right associativity) : wf_scope.
Local Open Scope wf_scope.

(** [await step.f(...)]: the environment decides how the call ends, except
    that a [step.run] whose callback throws cannot return. *)
Definition perform (c : call) : W data :=
  λ env tr,
    match env tr c with
    | Returns d =>
        match c with
        | Run _ (Raises e) => Threw e (tr ++ [Called c (Throws e)])
        | _ => Done d (tr ++ [Called c (Returns d)])
        end
    | Throws e => Threw e (tr ++ [Called c (Throws e)])
    end.

(** [throw e]. *)
Definition throw {A} (e : exn) : W A := λ _ tr, Threw e tr.

(** [logger.info], [logger.warn], [logger.error]. *)
Definition log (lv : level) (msg : string) (payload : data) : W unit :=
  λ _ tr, Done tt (tr ++ [Logged lv msg payload]).

(** [try { m } catch (error) { handler }]. *)
Definition try_catch {A} (m : W A) (handler : exn → W A) : W A :=
  λ env tr,
    match m env tr with
    | Done a tr' => Done a tr'
    | Threw e tr' => handler e env tr'
    | OutOfFuel tr' => OutOfFuel tr'
    end.

Definition out_of_fuel {A} : W A := λ _ tr, OutOfFuel tr.

(** The log of a run. *)
Definition trace {A} (r : run_result A) : list event :=
  match r with
  | Done _ tr | Threw _ tr | OutOfFuel tr => tr
  end.

(** [s.includes(sub)]. *)
Fixpoint includes (sub s : string) : bool :=
  String.prefix sub s ||
  match s with
  | String _ s' => includes sub s'
  | EmptyString => false
  end.

(** *** Operators of the language on data *)

(** What differs between engines or is not modelled in full: the message
    of the [TypeError] for a property [k] of [d] that cannot be used (read
    from [undefined] or [null], or called when it is no function), the
    conversion of a value to a string, and the conversion to a number of a
    value that is not one ([None] for [NaN]). *)
Record engine : Type := Engine {
  type_error_message : data → string → string;
  to_string : data → string;
  to_number : data → option Q;
}.

Definition nullish (d : data) : bool :=
  match d with
  | DUndefined | DNull => true
  | _ => false
  end.

Fixpoint lookup_field (k : string) (fs : list (string * data)) : data :=
  match fs with
  | [] => DUndefined
  | (k', v) :: fs' => if decide (k' = k) then v else lookup_field k fs'
  end.

(** The value of [d.k] when [d] is neither [undefined] nor [null], for the
    names that the handlers read: none of them is a member that strings,
    numbers, arrays or dates have of their own. *)
Definition property (k : string) (d : data) : data :=
  match d with
  | DObj fs => lookup_field k fs
  | _ => DUndefined
  end.

(** [d.k]. *)
Definition read (eng : engine) (k : string) (d : data) : W data :=
  if nullish d then throw (Exn (type_error_message eng d k) false)
  else wret (property k d).

(** The truth value of [d] in a condition. *)
Definition truthy (d : data) : bool :=
  match d with
  | DUndefined | DNull => false
  | DBool b => b
  | DNum q => negb (Qeq_bool q 0)
  | DStr s => negb (bool_decide (s = ""))
  | DNewDate | DObj _ | DArr _ => true
  end.

(** [d > q] for a number literal [q]. *)
Definition greater (eng : engine) (d : data) (q : Q) : bool :=
  match d with
  | DNum x => negb (Qle_bool x q)
  | _ =>
      match to_number eng d with
      | Some x => negb (Qle_bool x q)
      | None => false
      end
  end.

(** [d !== s] for a string literal [s]. *)
Definition differs (d : data) (s : string) : bool :=
  match d with
  | DStr s' => negb (bool_decide (s' = s))
  | _ => true
  end.

(** [d] in a template literal. *)
Definition interpolate (eng : engine) (d : data) : string :=
  match d with
  | DStr s => s
  | _ => to_string eng d
  end.

(** [d.join(sep)], for data that holds no function. *)
Definition join (eng : engine) (sep : string) (d : data) : W string :=
  match d with
  | DArr items =>
      wret
        (String.concat sep
           (map (λ x, if nullish x then "" else interpolate eng x) items))
  | _ => throw (Exn (type_error_message eng d "join") false)
  end.

(** A whole number in a template literal. *)
Definition show (n : nat) : string := pretty n.

Definition num (n : nat) : data := DNum (inject_Z (Z.of_nat n)).

(** ** Reading a log *)

Definition is_sleep (c : call) : bool :=
  match c with
  | Sleep _ _ => true
  | _ => false
  end.

Definition step_id (c : call) : string :=
  match c with
  | Run id _ | Sleep id _ | SendEvent id _ _
  | Invoke id _ _ _ | WaitForEvent id _ _ _ => id
  end.

(** The step calls of a log, in order, with their outcomes. *)
Fixpoint calls (tr : list event) : list (call * outcome) :=
  match tr with
  | [] => []
  | Called c o :: tr' => (c, o) :: calls tr'
  | Logged _ _ _ :: tr' => calls tr'
  end.

Definition step_ids (tr : list event) : list string :=
  (λ co : call * outcome, step_id co.1) <$> calls tr.

(** The events that were sent: name and payload. *)
Fixpoint sent_events (tr : list event) : list (string * data) :=
  match tr with
  | [] => []
  | Called (SendEvent _ name payload) (Returns _) :: tr' =>
      (name, payload) :: sent_events tr'
  | _ :: tr' => sent_events tr'
  end.

(** ** Subscription billing (processSubscriptionBilling) *)

Module Billing.

Definition MAX_PAYMENT_RETRIES : nat := 3.

(** [event.data] of the trigger [billing_cycle/due]. *)
Record billing_event : Type := BillingEvent {
  subscriptionId : data;
  userId : data;
  amount : data;
}.

(** The two variables that the retry loop assigns. *)
Record billing_state : Type := BillingState {
  paymentSucceeded : bool;
  lastPaymentError : data;
}.

Inductive control : Type := Continue | Break.

(** [paymentGateway.isPermanentDecline]. *)
Definition isPermanentDecline (error : exn) : bool :=
  includes "card_lost_or_stolen" (message error).

(** The body of the [for] loop for one value of [attempt]. *)
Definition payment_attempt (ev : billing_event) (attempt : nat)
    (st : billing_state) : W (control * billing_state) :=
  try_catch
    (perform
       (Run ("attempt-payment-" +:+ show attempt)
          (Service "paymentGateway.chargeRecurring"
             [userId ev; amount ev; subscriptionId ev])) ;;;
     log Info "Payment successful for subscription"
       (DObj [("subscriptionId", subscriptionId ev); ("attempt", num attempt)]) ;;;
     wret (Break, BillingState true (lastPaymentError st)))
    (λ error,
       log Warn ("Payment attempt " +:+ show attempt +:+ " failed for subscription")
         (DObj [("subscriptionId", subscriptionId ev);
                ("error", DStr (message error))]) ;;;
       let st' := BillingState (paymentSucceeded st) (DStr (message error)) in
       if non_retriable error || isPermanentDecline error then
         log Err "Permanent payment decline for subscription"
           (DObj [("subscriptionId", subscriptionId ev);
                  ("reason", DStr (message error))]) ;;;
         wret (Break, st')
       else if (attempt <? MAX_PAYMENT_RETRIES)%nat then
         perform
           (Sleep ("wait-before-retry-" +:+ show attempt)
              (show (attempt * 2) +:+ "d")) ;;;
         wret (Continue, st')
       else wret (Continue, st')).

(** [for (let attempt = 1; attempt <= MAX_PAYMENT_RETRIES; attempt++)],
    from a given [attempt] on. *)
Fixpoint payment_loop (fuel : nat) (ev : billing_event) (attempt : nat)
    (st : billing_state) : W billing_state :=
  match fuel with
  | O => out_of_fuel
  | S fuel' =>
      if (attempt <=? MAX_PAYMENT_RETRIES)%nat then
        let* r := payment_attempt ev attempt st in
        match r with
        | (Break, st') => wret st'
        | (Continue, st') => payment_loop fuel' ev (S attempt) st'
        end
      else wret st
  end.

(** The handler. *)
Definition processSubscriptionBilling (ev : billing_event) : W data :=
  log Info "Processing billing for subscription"
    (DObj [("subscriptionId", subscriptionId ev); ("userId", userId ev)]) ;;;
  let* st :=
    payment_loop (S MAX_PAYMENT_RETRIES) ev 1 (BillingState false DNull) in
  (if paymentSucceeded st then
     perform
       (SendEvent "send-payment-succeeded-event" "subscription/payment_succeeded"
          (DObj [("subscriptionId", subscriptionId ev);
                 ("userId", userId ev);
                 ("amount", amount ev)])) ;;;
     perform
       (Run "update-db-subscription-success"
          (Service "db.subscriptions.update"
             [subscriptionId ev;
              DObj [("status", DStr "active"); ("lastPayment", DNewDate)]])) ;;;
     wret tt
   else
     perform
       (SendEvent "send-payment-failed-event" "subscription/payment_failed_final"
          (DObj [("subscriptionId", subscriptionId ev);
                 ("userId", userId ev);
                 ("reason", lastPaymentError st)])) ;;;
     perform
       (Run "update-db-subscription-failure"
          (Service "db.subscriptions.update"
             [subscriptionId ev;
              DObj [("status", DStr "past_due");
                    ("reason", lastPaymentError st)]])) ;;;
     log Err "Final payment failure for subscription"
       (DObj [("subscriptionId", subscriptionId ev);
              ("reason", lastPaymentError st)])) ;;;
  wret (DObj [("subscriptionId", subscriptionId ev);
              ("paymentSucceeded", DBool (paymentSucceeded st))]).

(** A run of the handler from an empty log. *)
Definition billing_run (env : environment) (ev : billing_event)
    : run_result data :=
  processSubscriptionBilling ev env [].

(** A charge of the payment gateway. *)
Definition is_payment (c : call) : bool :=
  match c with
  | Run _ (Service name _) =>
      bool_decide (name = "paymentGateway.chargeRecurring")
  | _ => false
  end.

(** The payment attempts of a log. *)
Definition payment_attempts (tr : list event) : list (call * outcome) :=
  filter (λ co : call * outcome, is_payment co.1 = true) (calls tr).

(** The payment attempts and the waits between them. *)
Definition dunning_steps (tr : list event) : list call :=
  (filter (λ co : call * outcome, is_payment co.1 || is_sleep co.1 = true)
     (calls tr)).*1.

(** The charge of a subscription, as the payment attempts request it. *)
Definition charge (ev : billing_event) : callback :=
  Service "paymentGateway.chargeRecurring"
    [userId ev; amount ev; subscriptionId ev].

(** The longest course the retry loop can take: three attempts, with two
    days of waiting after the first and four days after the second. *)
Definition dunning_schedule (ev : billing_event) : list call :=
  [ Run "attempt-payment-1" (charge ev);
    Sleep "wait-before-retry-1" "2d";
    Run "attempt-payment-2" (charge ev);
    Sleep "wait-before-retry-2" "4d";
    Run "attempt-payment-3" (charge ev) ].

(** An error after which a charge is not tried again. *)
Definition permanent (e : exn) : bool :=
  non_retriable e || isPermanentDecline e.

(** Environments and an event to run the handler on. *)
Definition sample_event : billing_event :=
  BillingEvent (DStr "sub_1") (DStr "user_1") (num 10).

(** The first charge fails with a passing error; everything else goes
    well. *)
Definition flaky_env : environment :=
  λ _ c,
    if bool_decide (step_id c = "attempt-payment-1")
    then Throws (Exn "Transient payment gateway error" false)
    else Returns DUndefined.

(** Every charge is declined for good. *)
Definition stolen_card_env : environment :=
  λ _ c,
    if is_payment c then Throws (Exn "declined: card_lost_or_stolen" false)
    else Returns DUndefined.

(** Every charge fails with a passing error. *)
Definition failing_charge_env : environment :=
  λ _ c,
    if is_payment c then Throws (Exn "Transient payment gateway error" false)
    else Returns DUndefined.

(** Every charge fails with a passing error, and the first wait fails. *)
Definition broken_sleep_env : environment :=
  λ _ c,
    if is_payment c || is_sleep c
    then Throws (Exn "Transient payment gateway error" false)
    else Returns DUndefined.

End Billing.

(** ** The placeholder email service

    The page defines one [emailService], in the onboarding example; the
    order example uses it as "defined in previous example".  These are the
    methods it has. *)
Definition emailService : list string :=
  ["sendWelcome"; "sendUsageTips"; "sendFeatureActivationCongrats";
   "sendReEngagement"].

(** The body [emailService.method(args)] of a callback, the arguments being
    built: a call of the service when it has the method; with no such
    method the call throws. *)
Definition email_call (eng : engine) (method : string) (args : list data)
    : callback :=
  if bool_decide (method ∈ emailService)
  then Service ("emailService." +:+ method) args
  else Raises (Exn (type_error_message eng DUndefined method) false).

(** ** Order processing (orderOrchestrator) *)

Module Order.

(** [event.data] of the trigger [order/created]. *)
Record order_event : Type := OrderEvent {
  orderId : data;
  userId : data;
  items : data;
  totalAmount : data;
  paymentToken : data;
  customerEmail : data;
  customerName : data;
}.

(** The invocation of the payment function. *)
Definition payment_invocation (ev : order_event) : call :=
  Invoke "invoke-process-payment" "process-payment-function-id"
    (DObj [("orderId", orderId ev);
           ("userId", userId ev);
           ("amount", totalAmount ev);
           ("token", paymentToken ev)])
    (Some "5m").

(** The handler. *)
Definition orderOrchestrator (eng : engine) (ev : order_event) : W data :=
  log Info "Starting order orchestration"
    (DObj [("orderId", orderId ev); ("userId", userId ev)]) ;;;
  let* paymentResult :=
    try_catch
      (let* paymentResult := perform (payment_invocation ev) in
       log Info "Payment function invoked"
         (DObj [("orderId", orderId ev); ("paymentResult", paymentResult)]) ;;;
       let* status := read eng "status" paymentResult in
       if differs status "succeeded" then
         throw (Exn ("Payment failed with status: " +:+ interpolate eng status)
                  false)
       else wret paymentResult)
      (λ error,
         log Err "Payment processing failed"
           (DObj [("orderId", orderId ev); ("error", DStr (message error))]) ;;;
         perform
           (SendEvent "send-payment-failed-notification" "user/payment_failed"
              (DObj [("userId", userId ev);
                     ("orderId", orderId ev);
                     ("reason", DStr (message error))])) ;;;
         throw (Exn "Payment processing critically failed." true)) in
  perform
    (Run "update-inventory"
       (Service "inventoryService.decrementStock" [items ev])) ;;;
  log Info "Inventory updated" (DObj [("orderId", orderId ev)]) ;;;
  let* paymentId := read eng "paymentId" paymentResult in
  let* fulfillmentResult :=
    perform
      (Invoke "invoke-fulfill-order" "fulfill-order-function-id"
         (DObj [("orderId", orderId ev);
                ("userId", userId ev);
                ("items", items ev);
                ("paymentId", paymentId)])
         None) in
  log Info "Fulfillment function invoked"
    (DObj [("orderId", orderId ev);
           ("fulfillmentResult", fulfillmentResult)]) ;;;
  perform
    (Run "send-order-confirmation-email"
       (if nullish fulfillmentResult then
          Raises
            (Exn (type_error_message eng fulfillmentResult "trackingNumber")
               false)
        else
          email_call eng "sendOrderConfirmation"
            [DObj [("email", customerEmail ev);
                   ("name", customerName ev);
                   ("orderId", orderId ev);
                   ("trackingNumber",
                      property "trackingNumber" fulfillmentResult)]])) ;;;
  log Info "Order orchestration completed successfully"
    (DObj [("orderId", orderId ev)]) ;;;
  let* paymentId := read eng "paymentId" paymentResult in
  wret (DObj [("success", DBool true);
              ("orderId", orderId ev);
              ("paymentId", paymentId)]).

(** A run of the handler from an empty log. *)
Definition order_run (eng : engine) (env : environment) (ev : order_event)
    : run_result data :=
  orderOrchestrator eng ev env [].

(** The payment function reported success: it is the first step of the
    log and it returned an object whose [status] is "succeeded". *)
Definition paid (ev : order_event) (tr : list event) : Prop :=
  ∃ d, head (calls tr) = Some (payment_invocation ev, Returns d) ∧
       property "status" d = DStr "succeeded".

(** The steps that hand the order over: stock, fulfilment, confirmation. *)
Definition is_delivery (c : call) : bool :=
  bool_decide
    (step_id c ∈
       ["update-inventory"; "invoke-fulfill-order";
        "send-order-confirmation-email"]).

(** An engine, an event and environments to run the handler on. *)
Definition sample_engine : engine :=
  Engine (λ _ k, "Cannot read properties of undefined (reading " +:+ k +:+ ")")
    (λ _, "undefined") (λ _, None).

Definition sample_event : order_event :=
  OrderEvent (DStr "order_1") (DStr "user_1") (DArr [DStr "sku_1"])
    (num 25) (DStr "tok_1") (DStr "a@example.com") (DStr "Ada").

(** The payment succeeds and everything goes well. *)
Definition paying_env : environment :=
  λ _ c,
    if bool_decide (step_id c = "invoke-process-payment")
    then Returns (DObj [("status", DStr "succeeded"); ("paymentId", DStr "pay_1")])
    else Returns (DObj [("trackingNumber", DStr "track_1")]).

(** The payment is declined. *)
Definition declined_env : environment :=
  λ _ c,
    if bool_decide (step_id c = "invoke-process-payment")
    then Returns (DObj [("status", DStr "declined")])
    else Returns DUndefined.

End Order.

(** ** Content moderation (contentModerationPipeline) *)

Module Moderation.

(** [event.data] of the trigger [content/submitted]. *)
Record content_event : Type := ContentEvent {
  contentId : data;
  text : data;
  userId : data;
}.

(** The numbers that the literals [0.95] and [0.90] denote: the nearest
    binary floating-point numbers with 53 bits of precision. *)
Definition threshold_approve : Q := 8556839292003942 # 9007199254740992.
Definition threshold_reject : Q := 8106479329266893 # 9007199254740992.

Definition analysis (ev : content_event) : call :=
  Run "ai-text-analysis" (Service "aiModerationService.analyzeText" [text ev]).

Definition review_task (ev : content_event) (aiResult : data) : call :=
  Run "queue-for-human-review"
    (Service "humanReviewSystem.createTask"
       [contentId ev; text ev; userId ev; aiResult]).

Definition review_wait (eng : engine) (ev : content_event) : call :=
  WaitForEvent "wait-for-human-review" "content/human_review_completed" "3d"
    ("event.data.contentId == " +:+
     String quote (interpolate eng (contentId ev) +:+ String quote "")).

(** The handler. *)
Definition contentModerationPipeline (eng : engine) (ev : content_event)
    : W data :=
  log Info "Starting content moderation" (DObj [("contentId", contentId ev)]) ;;;
  let* aiResult := perform (analysis ev) in
  let* isSafe := read eng "isSafe" aiResult in
  let* confidence := read eng "confidence" aiResult in
  log Info "AI analysis complete"
    (DObj [("contentId", contentId ev);
           ("safe", isSafe);
           ("confidence", confidence)]) ;;;
  if truthy isSafe && greater eng confidence threshold_approve then
    perform
      (Run "auto-approve-content"
         (Service "contentService.updateStatus"
            [contentId ev; DStr "approved"])) ;;;
    log Info "Content auto-approved" (DObj [("contentId", contentId ev)]) ;;;
    wret (DObj [("contentId", contentId ev);
                ("status", DStr "approved");
                ("method", DStr "auto")])
  else if negb (truthy isSafe) && greater eng confidence threshold_reject then
    let* categories := read eng "categories" aiResult in
    perform
      (Run "auto-reject-content"
         (Service "contentService.updateStatus"
            [contentId ev; DStr "rejected"; categories])) ;;;
    log Info "Content auto-rejected"
      (DObj [("contentId", contentId ev); ("categories", categories)]) ;;;
    let* reason := join eng ", " categories in
    wret (DObj [("contentId", contentId ev);
                ("status", DStr "rejected");
                ("method", DStr "auto");
                ("reason", DStr reason)])
  else
    perform (review_task ev aiResult) ;;;
    log Info "Content queued for human review"
      (DObj [("contentId", contentId ev)]) ;;;
    let* reviewEvent := perform (review_wait eng ev) in
    if truthy reviewEvent then
      let* review := read eng "data" reviewEvent in
      let* decision := read eng "decision" review in
      let* reviewedBy := read eng "reviewedBy" review in
      let* comments := read eng "comments" review in
      log Info "Human review received"
        (DObj [("contentId", contentId ev);
               ("decision", decision);
               ("reviewedBy", reviewedBy)]) ;;;
      perform
        (Run "apply-human-decision"
           (Service "contentService.updateStatus"
              [contentId ev; decision; comments; reviewedBy])) ;;;
      wret (DObj [("contentId", contentId ev);
                  ("status", decision);
                  ("method", DStr "human");
                  ("reviewedBy", reviewedBy)])
    else
      log Warn "Human review timed out" (DObj [("contentId", contentId ev)]) ;;;
      perform
        (Run "handle-review-timeout"
           (Service "escalationService.notifyAdmins"
              [contentId ev; DStr "Human review timed out"])) ;;;
      wret (DObj [("contentId", contentId ev);
                  ("status", DStr "pending_escalation");
                  ("method", DStr "timeout")]).

(** A run of the handler from an empty log. *)
Definition moderation_run (eng : engine) (env : environment)
    (ev : content_event) : run_result data :=
  contentModerationPipeline eng ev env [].

(** The step that applies the decision of a review, [review] being the
    [data] of the review event. *)
Definition human_decision (ev : content_event) (review : data) : call :=
  Run "apply-human-decision"
    (Service "contentService.updateStatus"
       [contentId ev; property "decision" review; property "comments" review;
        property "reviewedBy" review]).

(** The step that escalates a review that did not come in time. *)
Definition escalation (ev : content_event) : call :=
  Run "handle-review-timeout"
    (Service "escalationService.notifyAdmins"
       [contentId ev; DStr "Human review timed out"]).

(** The steps that settle what becomes of the content. *)
Definition is_decision (c : call) : bool :=
  bool_decide
    (step_id c ∈
       ["auto-approve-content"; "auto-reject-content";
        "apply-human-decision"; "handle-review-timeout"]).

Definition decisions (tr : list event) : list (call * outcome) :=
  filter (λ co : call * outcome, is_decision co.1 = true) (calls tr).

(** An engine, an event and environments to run the handler on. *)
Definition sample_engine : engine :=
  Engine (λ _ k, "Cannot read properties of undefined (reading " +:+ k +:+ ")")
    (λ _, "undefined") (λ _, None).

Definition sample_event : content_event :=
  ContentEvent (DStr "content_1") (DStr "hello") (DStr "user_1").

(** The analysis finds the text safe with confidence 0.99. *)
Definition confident_safe_env : environment :=
  λ _ c,
    if bool_decide (step_id c = "ai-text-analysis")
    then Returns (DObj [("isSafe", DBool true);
                        ("confidence", DNum (99 # 100));
                        ("categories", DArr [])])
    else Returns DUndefined.

(** The analysis finds the text unsafe with confidence 0.93. *)
Definition confident_unsafe_env : environment :=
  λ _ c,
    if bool_decide (step_id c = "ai-text-analysis")
    then Returns (DObj [("isSafe", DBool false);
                        ("confidence", DNum (93 # 100));
                        ("categories", DArr [DStr "spam"; DStr "abuse"])])
    else Returns DUndefined.

(** The analysis is unsure, and a reviewer rejects the text. *)
Definition reviewed_env : environment :=
  λ _ c,
    if bool_decide (step_id c = "ai-text-analysis")
    then Returns (DObj [("isSafe", DBool true);
                        ("confidence", DNum (93 # 100));
                        ("categories", DArr [])])
    else if bool_decide (step_id c = "wait-for-human-review")
    then Returns (DObj [("data",
                         DObj [("decision", DStr "rejected");
                               ("reviewedBy", DStr "mod_7");
                               ("comments", DStr "off topic")])])
    else Returns DUndefined.

End Moderation.

(** ** User onboarding (userOnboardingSequence) *)

Module Onboarding.

(** [event.data] of the trigger [user/signup]. *)
Record signup_event : Type := SignupEvent {
  userId : data;
  email : data;
  name : data;
  plan : data;
}.

Definition recipient (ev : signup_event) : data :=
  DObj [("email", email ev); ("name", name ev); ("plan", plan ev)].

Definition welcome (ev : signup_event) : call :=
  Run "send-welcome-email" (Service "emailService.sendWelcome" [recipient ev]).

Definition tips (ev : signup_event) : call :=
  Run "send-follow-up-tips"
    (Service "emailService.sendUsageTips" [recipient ev]).

Definition activation_wait (eng : engine) (ev : signup_event) : call :=
  WaitForEvent "wait-for-feature-activation" "user/activated_feature_X" "5d"
    ("event.data.userId == " +:+
     String quote (interpolate eng (userId ev) +:+ String quote "")).

(** The handler. *)
Definition userOnboardingSequence (eng : engine) (ev : signup_event)
    : W data :=
  log Info "Starting onboarding sequence"
    (DObj [("userId", userId ev); ("plan", plan ev)]) ;;;
  perform (welcome ev) ;;;
  log Info "Welcome email sent" (DObj [("userId", userId ev)]) ;;;
  perform (Sleep "wait-2-days" "2d") ;;;
  perform (tips ev) ;;;
  log Info "Follow-up tips email sent" (DObj [("userId", userId ev)]) ;;;
  let* activationEvent := perform (activation_wait eng ev) in
  (if truthy activationEvent then
     let* activation := read eng "data" activationEvent in
     let* featureName := read eng "featureName" activation in
     log Info "User activated feature"
       (DObj [("userId", userId ev); ("feature", featureName)]) ;;;
     perform
       (Run "send-activation-congrats-email"
          (Service "emailService.sendFeatureActivationCongrats"
             [DObj [("email", email ev);
                    ("name", name ev);
                    ("featureName", featureName)]])) ;;;
     wret tt
   else
     log Info "User did not activate feature within 5 days"
       (DObj [("userId", userId ev)]) ;;;
     perform
       (Run "send-re-engagement-email"
          (Service "emailService.sendReEngagement" [recipient ev])) ;;;
     wret tt) ;;;
  log Info "Onboarding sequence completed for user"
    (DObj [("userId", userId ev)]) ;;;
  wret (DObj [("status", DStr "completed"); ("userId", userId ev)]).

(** The congratulation email, [activation] being the [data] of the
    activation event. *)
Definition congratulation (ev : signup_event) (activation : data) : call :=
  Run "send-activation-congrats-email"
    (Service "emailService.sendFeatureActivationCongrats"
       [DObj [("email", email ev);
              ("name", name ev);
              ("featureName", property "featureName" activation)]]).

Definition re_engagement (ev : signup_event) : call :=
  Run "send-re-engagement-email"
    (Service "emailService.sendReEngagement" [recipient ev]).

(** A run of the handler from an empty log. *)
Definition onboarding_run (eng : engine) (env : environment)
    (ev : signup_event) : run_result data :=
  userOnboardingSequence eng ev env [].

(** An engine, an event and an environment to run the handler on. *)
Definition sample_engine : engine :=
  Engine (λ _ k, "Cannot read properties of undefined (reading " +:+ k +:+ ")")
    (λ _, "undefined") (λ _, None).

Definition sample_event : signup_event :=
  SignupEvent (DStr "user_1") (DStr "a@example.com") (DStr "Ada") (DStr "pro").

(** Every step returns nothing: the wait for the activation times out. *)
Definition idle_env : environment := λ _ _, Returns DNull.

End Onboarding.

(** * Properties *)

(** ** Allocation *)

Lemma new_loc_fresh (h : gmap loc cell) : h !! new_loc h = None.
Proof. apply not_elem_of_dom. unfold new_loc. apply is_fresh. Qed.

Lemma alloc_extends (h : gmap loc cell) (c : cell) :
  h ⊆ <[new_loc h := c]> h.
Proof. apply insert_subseteq, new_loc_fresh. Qed.

Lemma alloc_size (h : gmap loc cell) (c : cell) :
  size (<[new_loc h := c]> h) = S (size h).
Proof. apply map_size_insert_None, new_loc_fresh. Qed.

(** ** Reading values *)

(** More depth never changes what was read. *)
Lemma reify_mono (h : gmap loc cell) (n : nat) :
  ∀ (m : nat) (v : value) (t : tree),
    (n ≤ m)%nat → reify n h v = Some t → reify m h v = Some t.
Proof.
  induction n as [|n IH]; intros m v t Hle Hr.
  - destruct v; destruct m; try done.
  - destruct m as [|m]; [lia|].
    destruct v as [| | |l]; try done.
    cbn [reify] in *.
    assert (Hps : ∀ ps ts,
      map_properties (reify n h) ps = Some ts →
      map_properties (reify m h) ps = Some ts).
    { induction ps as [|[k v] ps IHps]; intros ts Hts; [done|].
      cbn [map_properties] in *.
      destruct (reify n h v) as [t'|] eqn:Hv; [|done].
      destruct (map_properties (reify n h) ps) as [ts'|] eqn:Hts'; [|done].
      rewrite (IH m v t') by (done || lia).
      by rewrite (IHps ts'). }
    destruct (h !! l) as [[ps|ty ps]|]; [| |done].
    + destruct (map_properties (reify n h) ps) as [ts|] eqn:Hts; [|done].
      by rewrite (Hps ps ts).
    + destruct (map_properties (reify n h) ps) as [ts|] eqn:Hts; [|done].
      by rewrite (Hps ps ts).
Qed.

(** ** The run of the module *)

Section RunFacts.
Variable imports : string → string → value.
Variable h : gmap loc cell.

Lemma theme_config_run :
  theme_config imports (init_state h) = Ok (tt, final_state imports h).
Proof. reflexivity. Qed.

Lemma h_logo_extends : h ⊆ h_logo h.
Proof. apply alloc_extends. Qed.

Lemma h_project_extends : h_logo h ⊆ h_project h.
Proof. apply alloc_extends. Qed.

Lemma h_chat_extends : h_project h ⊆ h_chat h.
Proof. apply alloc_extends. Qed.

Lemma h_footer_extends : h_chat h ⊆ h_footer h.
Proof. apply alloc_extends. Qed.

Lemma h_config_extends : h_footer h ⊆ h_config h.
Proof. apply alloc_extends. Qed.

(** Nothing that was in the heap before the module ran is changed. *)
Lemma heap_extends : h ⊆ h_config h.
Proof.
  etrans; [apply h_logo_extends|].
  etrans; [apply h_project_extends|].
  etrans; [apply h_chat_extends|].
  etrans; [apply h_footer_extends|apply h_config_extends].
Qed.

Lemma lookup_config : h_config h !! l_config h = Some (config_cell h).
Proof. apply lookup_insert_eq. Qed.

Lemma lookup_footer : h_config h !! l_footer h = Some footer_cell.
Proof.
  eapply lookup_weaken; [apply lookup_insert_eq|apply h_config_extends].
Qed.

Lemma lookup_chat : h_config h !! l_chat h = Some chat_cell.
Proof.
  eapply lookup_weaken; [apply lookup_insert_eq|].
  etrans; [apply h_footer_extends|apply h_config_extends].
Qed.

Lemma lookup_project : h_config h !! l_project h = Some project_cell.
Proof.
  eapply lookup_weaken; [apply lookup_insert_eq|].
  etrans; [apply h_chat_extends|].
  etrans; [apply h_footer_extends|apply h_config_extends].
Qed.

Lemma lookup_logo : h_config h !! l_logo h = Some logo_cell.
Proof.
  eapply lookup_weaken; [apply lookup_insert_eq|].
  etrans; [apply h_project_extends|].
  etrans; [apply h_chat_extends|].
  etrans; [apply h_footer_extends|apply h_config_extends].
Qed.

Lemma size_h_config : size (h_config h) = 5 + size h.
Proof.
  unfold h_config, h_footer, h_chat, h_project, h_logo,
    l_config, l_footer, l_chat, l_project, l_logo.
  by rewrite !alloc_size.
Qed.

(** Two levels of references are enough to read the whole object. *)
Lemma reify_config :
  reify 2 (h_config h) (VRef (l_config h)) = Some config_tree.
Proof.
  cbn [reify]. rewrite lookup_config. unfold config_cell.
  cbn [map_properties reify].
  rewrite lookup_logo, lookup_project, lookup_chat, lookup_footer.
  reflexivity.
Qed.

Lemma exported_config_eq : exported_config imports h = Some config_tree.
Proof.
  unfold exported_config. rewrite theme_config_run.
  cbn [final_state exports heap].
  rewrite lookup_insert_eq.
  apply (reify_mono _ 2); [rewrite size_h_config; lia|apply reify_config].
Qed.
End RunFacts.

(** ** JSON text read back *)

Lemma string_app_nil_l (a : string) : "" +:+ a = a.
Proof. reflexivity. Qed.

Lemma string_app_cons (x : ascii) (a b : string) :
  String x a +:+ b = String x (a +:+ b).
Proof. reflexivity. Qed.

Lemma string_app_assoc (a b c : string) : (a +:+ b) +:+ c = a +:+ (b +:+ c).
Proof.
  induction a as [|x a IH]; [done|].
  by rewrite !string_app_cons, IH.
Qed.

Lemma string_app_nil_r (a : string) : a +:+ "" = a.
Proof.
  induction a as [|x a IH]; [done|].
  by rewrite string_app_cons, IH.
Qed.

Lemma string_length_app (a b : string) :
  String.length (a +:+ b) = (String.length a + String.length b)%nat.
Proof.
  induction a as [|x a IH]; [done|].
  rewrite string_app_cons. cbn [String.length]. by rewrite IH.
Qed.

(** Induction on JSON values, with the property at hand for every member of
    an object. *)
Lemma json_members_ind (P : json → Prop) :
  (∀ s, P (JString s)) →
  (∀ ms, Forall (λ kj : string * json, P kj.2) ms → P (JObject ms)) →
  ∀ j, P j.
Proof.
  intros Hstring Hobject.
  refine (fix IH (j : json) : P j :=
    match j with
    | JString s => Hstring s
    | JObject ms =>
        Hobject ms
          ((fix members (ms : list (string * json)) :=
              match ms return Forall (λ kj : string * json, P kj.2) ms with
              | [] => Forall_nil_2 _
              | (k, j') :: ms' => Forall_cons_2 _ (k, j') ms' (IH j') (members ms')
              end) ms)
    end).
Qed.

(** One escaped character is read back as the character. *)
Lemma parse_string_body_escape_char (c : ascii) (r : string) :
  parse_string_body (escape_char c +:+ r) =
  match parse_string_body r with
  | Some (body, rest) => Some (String c body, rest)
  | None => None
  end.
Proof. destruct c as [[] [] [] [] [] [] [] []]; reflexivity. Qed.

Lemma parse_string_body_escape (s rest : string) :
  parse_string_body (escape s +:+ String quote rest) = Some (s, rest).
Proof.
  induction s as [|c s IH]; [reflexivity|].
  cbn [escape].
  by rewrite string_app_assoc, parse_string_body_escape_char, IH.
Qed.

Lemma json_string_app (s r : string) :
  json_string s +:+ r = String quote (escape s +:+ String quote r).
Proof.
  unfold json_string.
  by rewrite string_app_cons, string_app_assoc, string_app_cons.
Qed.

Lemma json_string_length (s : string) : (2 ≤ String.length (json_string s))%nat.
Proof.
  unfold json_string. cbn [String.length].
  rewrite string_length_app. cbn [String.length]. lia.
Qed.

Lemma json_stringify_object (ms : list (string * json)) :
  json_stringify (JObject ms) = String "{" (members_text ms +:+ "}").
Proof. reflexivity. Qed.

Lemma members_text_one (m : string * json) :
  members_text [m] = member_text m.
Proof. reflexivity. Qed.

Lemma members_text_more (m m' : string * json) (ms : list (string * json)) :
  members_text (m :: m' :: ms) =
  member_text m +:+ String "," (members_text (m' :: ms)).
Proof. reflexivity. Qed.

(** A string at the head of the input. *)
Lemma parse_value_string (fuel : nat) (s rest : string) :
  parse_value (S fuel) (json_string s +:+ rest) = Some (JString s, rest).
Proof.
  rewrite json_string_app.
  transitivity
    (match parse_string_body (escape s +:+ String quote rest) with
     | Some (body, rest') => Some (JString body, rest')
     | None => None
     end); [reflexivity|].
  by rewrite parse_string_body_escape.
Qed.

(** An opening brace at the head of the input. *)
Lemma parse_value_open (fuel : nat) (r : string) :
  parse_value (S fuel) (String "{" r) =
  match skip_space r with
  | String "}" rest => Some (JObject [], rest)
  | _ =>
      match parse_members fuel r with
      | Some (ms, rest) => Some (JObject ms, rest)
      | None => None
      end
  end.
Proof. reflexivity. Qed.

(** A key and its colon at the head of the input. *)
Lemma parse_members_key (fuel : nat) (k r : string) :
  parse_members (S fuel) (json_string k +:+ String ":" r) =
  match parse_value fuel r with
  | Some (j, s4) =>
      match skip_space s4 with
      | String "," s5 =>
          match parse_members fuel s5 with
          | Some (ms, rest) => Some ((k, j) :: ms, rest)
          | None => None
          end
      | String "}" rest => Some ([(k, j)], rest)
      | _ => None
      end
  | None => None
  end.
Proof.
  rewrite json_string_app.
  transitivity
    (match parse_string_body (escape k +:+ String quote (String ":" r)) with
     | Some (k', s2) =>
         match skip_space s2 with
         | String ":" s3 =>
             match parse_value fuel s3 with
             | Some (j, s4) =>
                 match skip_space s4 with
                 | String "," s5 =>
                     match parse_members fuel s5 with
                     | Some (ms, rest) => Some ((k', j) :: ms, rest)
                     | None => None
                     end
                 | String "}" rest => Some ([(k', j)], rest)
                 | _ => None
                 end
             | None => None
             end
         | _ => None
         end
     | None => None
     end); [reflexivity|].
  by rewrite parse_string_body_escape.
Qed.

Lemma member_text_app (k : string) (j : json) (r : string) :
  member_text (k, j) +:+ r = json_string k +:+ String ":" (json_stringify j +:+ r).
Proof.
  unfold member_text. cbn [fst snd].
  by rewrite !string_app_assoc, string_app_cons, string_app_nil_l.
Qed.

Lemma member_text_length (k : string) (j : json) :
  (String.length (json_stringify j) < String.length (member_text (k, j)))%nat.
Proof.
  unfold member_text. cbn [fst snd].
  rewrite string_length_app, string_app_cons, string_app_nil_l.
  cbn [String.length]. lia.
Qed.

(** The members of an object are read back, given the same for the value
    of each member. *)
Lemma parse_members_text (ms : list (string * json)) :
  Forall (λ kj : string * json,
    ∀ fuel rest, (String.length (json_stringify kj.2) ≤ fuel)%nat →
      parse_value fuel (json_stringify kj.2 +:+ rest) = Some (kj.2, rest)) ms →
  ms ≠ [] →
  ∀ fuel rest, (String.length (members_text ms) < fuel)%nat →
    parse_members fuel (members_text ms +:+ String "}" rest) = Some (ms, rest).
Proof.
  induction 1 as [|[k j] ms Hj Hms IH]; [done|].
  intros _ fuel rest Hfuel. cbn [snd] in Hj.
  destruct fuel as [|fuel]; [lia|].
  pose proof (member_text_length k j) as Hlen.
  destruct ms as [|m' ms].
  - rewrite members_text_one in *.
    rewrite member_text_app, parse_members_key, Hj by lia.
    reflexivity.
  - rewrite members_text_more in *.
    rewrite string_length_app in Hfuel. cbn [String.length] in Hfuel.
    rewrite string_app_assoc, member_text_app, parse_members_key.
    rewrite string_app_cons, Hj by lia.
    transitivity
      (match parse_members fuel
               (members_text (m' :: ms) +:+ String "}" rest) with
       | Some (ms', rest') => Some ((k, j) :: ms', rest')
       | None => None
       end); [reflexivity|].
    by rewrite IH by (done || lia).
Qed.

(** What [json_stringify] writes is read back, whatever follows it. *)
Lemma parse_value_stringify (j : json) :
  ∀ fuel rest, (String.length (json_stringify j) ≤ fuel)%nat →
    parse_value fuel (json_stringify j +:+ rest) = Some (j, rest).
Proof.
  induction j as [s|ms IH] using json_members_ind; intros fuel rest Hfuel.
  - pose proof (json_string_length s). cbn [json_stringify] in Hfuel.
    destruct fuel as [|fuel]; [lia|]. apply parse_value_string.
  - rewrite json_stringify_object in *.
    cbn [String.length] in Hfuel. rewrite string_length_app in Hfuel.
    cbn [String.length] in Hfuel.
    destruct fuel as [|fuel]; [lia|].
    rewrite string_app_cons, string_app_assoc, string_app_cons,
      string_app_nil_l, parse_value_open.
    destruct ms as [|[k j] ms]; [reflexivity|].
    rewrite parse_members_text by (done || lia).
    destruct ms as [|m' ms].
    + rewrite members_text_one, member_text_app, json_string_app. reflexivity.
    + rewrite members_text_more, string_app_assoc, member_text_app,
        json_string_app. reflexivity.
Qed.

(** [JSON.parse (JSON.stringify j)] is [j]. *)
Lemma json_round_trip (j : json) : json_parse (json_stringify j) = Some j.
Proof.
  unfold json_parse.
  rewrite <- (string_app_nil_r (json_stringify j)) at 2.
  rewrite parse_value_stringify by lia. reflexivity.
Qed.

Lemma of_json_plain_data (t : tree) :
  ∀ j, plain_data t = Some j → of_json j = t.
Proof.
  revert t. fix IH 1. intros [| s | f | ps | ty ps] j Hj; try discriminate Hj.
  - by injection Hj as <-.
  - cbn [plain_data] in Hj.
    destruct (map_properties plain_data ps) as [ms|] eqn:Hms; [|discriminate Hj].
    injection Hj as <-. cbn [of_json]. f_equal.
    revert ms Hms. induction ps as [|[k t'] ps IHps]; intros ms Hms.
    + by injection Hms as <-.
    + cbn [map_properties] in Hms.
      destruct (plain_data t') as [j'|] eqn:Hj'; [|discriminate Hms].
      destruct (map_properties plain_data ps) as [ms'|] eqn:Hms';
        [|discriminate Hms].
      injection Hms as <-. cbn [map fst snd].
      by rewrite (IH t' j' Hj'), (IHps ms').
Qed.

(** Plain data comes back unchanged from a trip through JSON text. *)
Lemma plain_data_round_trip (t : tree) (j : json) :
  plain_data t = Some j →
  of_json <$> json_parse (json_stringify j) = Some t.
Proof.
  intros Hj. rewrite json_round_trip. cbn. by rewrite (of_json_plain_data t j).
Qed.

(** ** The shape of the exported object *)

(** C1: the exported configuration has exactly the top-level keys [logo],
    [project], [chat], [docsRepositoryBase] and [footer]; [project] and
    [chat] hold exactly the key [link] and [footer] holds exactly the key
    [content]. *)
Theorem config_fields_exact (imports : string → string → value)
    (h : gmap loc cell) :
  ∃ t : tree,
    exported_config imports h = Some t ∧
    keys t = ["logo"; "project"; "chat"; "docsRepositoryBase"; "footer"] ∧
    keys <$> get "project" t = Some ["link"] ∧
    keys <$> get "chat" t = Some ["link"] ∧
    keys <$> get "footer" t = Some ["content"].
Proof.
  exists config_tree. split; [apply exported_config_eq|].
  repeat split.
Qed.

(** C2, as the specification words it, fails: the value bound to the first
    key, [logo], is an element and not a scalar (and so are the objects
    bound to [project], [chat] and [footer]). *)
Lemma config_not_flat :
  ∃ t : tree,
    exported_config (λ _ _, VUndefined) ∅ = Some t ∧
    get "project" t =
      Some (TObject [("link", TString "https://github.com/inngest")]) ∧
    ¬ flat t.
Proof.
  exists config_tree. split; [apply exported_config_eq|].
  split; [reflexivity|].
  unfold flat. cbn [own_properties config_tree].
  rewrite Forall_cons. intros [Hlogo _]. discriminate Hlogo.
Qed.

(** C2, amended: the configuration is not flat.  Of the values bound to
    its five top-level keys only that of [docsRepositoryBase] is a scalar,
    a string; [logo] is bound to a React element, and [project], [chat] and
    [footer] are bound to plain objects, each of which holds strings
    only. *)
Theorem config_value_kinds (imports : string → string → value)
    (h : gmap loc cell) :
  ∃ t : tree,
    exported_config imports h = Some t ∧
    kinds t =
      [ ("logo", KElement); ("project", KObject); ("chat", KObject);
        ("docsRepositoryBase", KString); ("footer", KObject) ] ∧
    Forall (λ kv : string * tree, kind_of kv.2 = KObject → holds_strings kv.2)
      (own_properties t) ∧
    scalar_keys t = ["docsRepositoryBase"].
Proof.
  exists config_tree. split; [apply exported_config_eq|].
  split; [reflexivity|]. split; [|reflexivity].
  cbn [own_properties config_tree].
  repeat (apply Forall_cons_2; [cbn [snd kind_of]; intros Hkind|]);
    try apply Forall_nil_2; try discriminate Hkind.
  all: split; [reflexivity|].
  all: cbn [own_properties]; repeat constructor.
Qed.

(** C3: [project.link], [chat.link] and [docsRepositoryBase] are strings
    that parse as absolute URLs, a scheme followed by a host. *)
Theorem link_fields_are_urls (imports : string → string → value)
    (h : gmap loc cell) :
  ∃ t : tree,
    exported_config imports h = Some t ∧
    get_url ["project"; "link"] t = Some (Url "https" "github.com" "/inngest") ∧
    get_url ["chat"; "link"] t =
      Some (Url "https" "discord.com" "/invite/mPfcyDEdpx") ∧
    get_url ["docsRepositoryBase"] t =
      Some (Url "https" "github.com" "/inngest/website").
Proof.
  exists config_tree. split; [apply exported_config_eq|].
  repeat split; vm_compute; reflexivity.
Qed.

(** C4: [footer.content] is a string and [logo] is a React element, not a
    string and not a plain object. *)
Theorem footer_string_logo_element (imports : string → string → value)
    (h : gmap loc cell) :
  ∃ t : tree,
    exported_config imports h = Some t ∧
    kind_of <$> get_path ["footer"; "content"] t = Some KString ∧
    kind_of <$> get "logo" t = Some KElement ∧
    (is_scalar <$> get "logo" t) = Some false ∧
    (get "logo" t ≫= plain_data) = None.
Proof.
  exists config_tree. split; [apply exported_config_eq|].
  repeat split.
Qed.

(** ** Evaluation *)

(** C5: evaluation of the module is a function of nothing.  Whatever the
    loader supplies for the imports and whatever the heap holds, the run
    ends normally, leaves every object that was there untouched, and
    exports the same configuration, in which no value is a function. *)
Theorem evaluation_pure (imports1 imports2 : string → string → value)
    (h1 h2 : gmap loc cell) :
  ∃ (s1 s2 : module_state) (t : tree),
    theme_config imports1 (init_state h1) = Ok (tt, s1) ∧
    theme_config imports2 (init_state h2) = Ok (tt, s2) ∧
    h1 ⊆ heap s1 ∧
    h2 ⊆ heap s2 ∧
    exported_config imports1 h1 = Some t ∧
    exported_config imports2 h2 = Some t ∧
    no_function t = true.
Proof.
  exists (final_state imports1 h1), (final_state imports2 h2), config_tree.
  split; [apply theme_config_run|].
  split; [apply theme_config_run|].
  split; [apply heap_extends|].
  split; [apply heap_extends|].
  split; [apply exported_config_eq|].
  split; [apply exported_config_eq|reflexivity].
Qed.

(** C6: building and exporting the configuration cannot fail.  For every
    loader and every heap the run returns normally; its default export is
    a reference to an object that was not in the heap before, that has the
    five properties of the literal, and from which the whole configuration
    can be read.  The run never throws. *)
Theorem evaluation_succeeds (imports : string → string → value)
    (h : gmap loc cell) :
  (∃ (s : module_state) (l : loc) (ps : list (string * value)),
     theme_config imports (init_state h) = Ok (tt, s) ∧
     exports s !! "default" = Some (VRef l) ∧
     h !! l = None ∧
     heap s !! l = Some (CObject ps) ∧
     ps.*1 = ["logo"; "project"; "chat"; "docsRepositoryBase"; "footer"] ∧
     reify (S (size (heap s))) (heap s) (VRef l) = Some config_tree) ∧
  (∀ e : js_error, theme_config imports (init_state h) ≠ Throw e).
Proof.
  split.
  - exists (final_state imports h), (l_config h),
      [ ("logo", VRef (l_logo h));
        ("project", VRef (l_project h));
        ("chat", VRef (l_chat h));
        ("docsRepositoryBase", VString "https://github.com/inngest/website");
        ("footer", VRef (l_footer h)) ].
    split; [apply theme_config_run|].
    cbn [final_state exports heap].
    split; [apply lookup_insert_eq|].
    split.
    { eapply lookup_weaken_None; [apply new_loc_fresh|].
      etrans; [apply h_logo_extends|].
      etrans; [apply h_project_extends|].
      etrans; [apply h_chat_extends|apply h_footer_extends]. }
    split; [apply lookup_config|].
    split; [reflexivity|].
    apply (reify_mono _ 2); [rewrite size_h_config; lia|apply reify_config].
  - intros e. by rewrite theme_config_run.
Qed.

(** ** The values of the fields *)

(** C7: the fields hold exactly the constants of the source: the three
    links, the footer text, and for [logo] a [span] element whose text is
    "Inngest Core". *)
Theorem config_constants (imports : string → string → value)
    (h : gmap loc cell) :
  ∃ t : tree,
    exported_config imports h = Some t ∧
    get_path ["project"; "link"] t =
      Some (TString "https://github.com/inngest") ∧
    get_path ["chat"; "link"] t =
      Some (TString "https://discord.com/invite/mPfcyDEdpx") ∧
    get_path ["docsRepositoryBase"] t =
      Some (TString "https://github.com/inngest/website") ∧
    get_path ["footer"; "content"] t = Some (TString "Inngest Docs") ∧
    get "logo" t ≫= element_type = Some "span" ∧
    get "logo" t ≫= text_content = Some "Inngest Core".
Proof.
  exists config_tree. split; [apply exported_config_eq|].
  repeat split.
Qed.

(** C8: the three links begin with [https://]; without [logo] the
    configuration is plain data, strings inside plain objects, and comes
    back unchanged from [JSON.parse (JSON.stringify ...)]. *)
Theorem links_https_json_round_trip (imports : string → string → value)
    (h : gmap loc cell) :
  ∃ (t : tree) (j : json),
    exported_config imports h = Some t ∧
    String.prefix "https://" <$> get_string ["project"; "link"] t = Some true ∧
    String.prefix "https://" <$> get_string ["chat"; "link"] t = Some true ∧
    String.prefix "https://" <$> get_string ["docsRepositoryBase"] t
      = Some true ∧
    plain_data (without "logo" t) = Some j ∧
    of_json <$> json_parse (json_stringify j) = Some (without "logo" t).
Proof.
  exists config_tree.
  eexists. split; [apply exported_config_eq|].
  do 3 (split; [reflexivity|]).
  split; [reflexivity|].
  by apply plain_data_round_trip.
Qed.

(** ** The interface of the module *)

(** C9: the module exports one symbol, [default], and its value is the
    very object that the constant [config] is bound to. *)
Theorem single_default_export (imports : string → string → value)
    (h : gmap loc cell) :
  ∃ (s : module_state) (l : loc),
    theme_config imports (init_state h) = Ok (tt, s) ∧
    exports s = {["default" := VRef l]} ∧
    dom (exports s) = ({["default"]} : gset string) ∧
    scope s !! "config" = Some (VRef l) ∧
    is_Some (heap s !! l).
Proof.
  exists (final_state imports h), (l_config h).
  split; [apply theme_config_run|].
  cbn [final_state exports scope heap].
  split; [apply insert_empty|].
  split; [by rewrite insert_empty, dom_singleton_L|].
  split; [apply lookup_insert_eq|].
  rewrite lookup_config. by eexists.
Qed.

(** * Properties of the workflow handlers *)

(** ** Operators on data *)

(** A truthy value is neither [undefined] nor [null]. *)
Lemma truthy_not_nullish (d : data) : truthy d = true → nullish d = false.
Proof. by destruct d. Qed.

Ltac absurd_event :=
  match goal with
  | H1 : truthy ?d = true, H2 : nullish ?d = true |- _ =>
      rewrite (truthy_not_nullish d H1) in H2; discriminate H2
  end.

(** ** Subscription billing *)

Section BillingFacts.
Import Billing.

(** Symbolic execution of the handler: compute up to the next question to
    the environment, then split on its answer. *)
Ltac run_handler :=
  cbv [processSubscriptionBilling payment_loop payment_attempt
       wbind wret perform log try_catch out_of_fuel
       MAX_PAYMENT_RETRIES Nat.leb Nat.ltb app
       paymentSucceeded lastPaymentError].

Ltac ask_env env :=
  match goal with
  | |- context [match env ?tr ?c with _ => _ end] =>
      destruct (env tr c) as [?d|?e] eqn:?Henv
  | |- context [if non_retriable ?e || isPermanentDecline ?e then _ else _] =>
      destruct (non_retriable e || isPermanentDecline e) eqn:?Hpermanent
  end.

Ltac all_runs env :=
  unfold billing_run; repeat (run_handler; ask_env env); run_handler.

(** A property of every event of a log and of what follows it. *)
Fixpoint each_with_rest (P : event → list event → Prop)
    (tr : list event) : Prop :=
  match tr with
  | [] => True
  | x :: tr' => P x tr' ∧ each_with_rest P tr'
  end.

Lemma each_with_rest_split (P : event → list event → Prop) (tr : list event) :
  each_with_rest P tr → ∀ tr1 x tr2, tr = (tr1 ++ x :: tr2)%list → P x tr2.
Proof.
  intros H tr1. revert tr H.
  induction tr1 as [|y tr1 IH]; intros tr H x tr2 ->.
  - apply H.
  - destruct H as [_ H]. by apply (IH _ H).
Qed.

(** X1: the retry loop of [processSubscriptionBilling] always ends, and the
    payment attempts and waits of a run are an initial part of one fixed
    schedule: attempt 1, wait 2d, attempt 2, wait 4d, attempt 3.  At least
    the first attempt is made and there is never a fourth. *)
Theorem billing_follows_schedule (env : environment) (ev : billing_event) :
  (∀ tr, billing_run env ev ≠ OutOfFuel tr) ∧
  ∃ k : nat,
    (1 ≤ k ≤ 5)%nat ∧
    dunning_steps (trace (billing_run env ev)) = take k (dunning_schedule ev).
Proof.
  all_runs env.
  all: split; [done|].
  all: first
    [ exists 1%nat; split; [lia|vm_compute; reflexivity]
    | exists 2%nat; split; [lia|vm_compute; reflexivity]
    | exists 3%nat; split; [lia|vm_compute; reflexivity]
    | exists 4%nat; split; [lia|vm_compute; reflexivity]
    | exists 5%nat; split; [lia|vm_compute; reflexivity] ].
Qed.

(** X2: no two step calls of a run of [processSubscriptionBilling] have the
    same step id, as the SDK asks of a function. *)
Theorem billing_step_ids_unique (env : environment) (ev : billing_event) :
  NoDup (step_ids (trace (billing_run env ev))).
Proof.
  all_runs env.
  all: apply (bool_decide_unpack _); vm_compute; exact I.
Qed.

(** X3: when [processSubscriptionBilling] returns, it has sent exactly one
    event.  After a last payment attempt that returned it is
    [subscription/payment_succeeded] with the subscription, user and amount
    and the result says [paymentSucceeded: true]; after a last attempt that
    threw it is [subscription/payment_failed_final] with the message of
    that error as the reason and the result says [false]. *)
Theorem billing_reports_outcome (env : environment) (ev : billing_event)
    (v : data) (tr : list event) :
  billing_run env ev = Done v tr →
  (∃ c d,
     last (payment_attempts tr) = Some (c, Returns d) ∧
     v = DObj [("subscriptionId", subscriptionId ev);
               ("paymentSucceeded", DBool true)] ∧
     sent_events tr =
       [("subscription/payment_succeeded",
         DObj [("subscriptionId", subscriptionId ev);
               ("userId", userId ev);
               ("amount", amount ev)])]) ∨
  (∃ c e,
     last (payment_attempts tr) = Some (c, Throws e) ∧
     v = DObj [("subscriptionId", subscriptionId ev);
               ("paymentSucceeded", DBool false)] ∧
     sent_events tr =
       [("subscription/payment_failed_final",
         DObj [("subscriptionId", subscriptionId ev);
               ("userId", userId ev);
               ("reason", DStr (message e))])]).
Proof.
  all_runs env.
  all: intros Hrun; try discriminate Hrun; injection Hrun as <- <-.
  all: first
    [ left; eexists _, _; split_and!; vm_compute; reflexivity
    | right; eexists _, _; split_and!; vm_compute; reflexivity ].
Qed.

Lemma billing_reports_outcome_witness :
  ∃ v tr,
    billing_run flaky_env sample_event = Done v tr ∧
    sent_events tr =
      [("subscription/payment_succeeded",
        DObj [("subscriptionId", DStr "sub_1");
              ("userId", DStr "user_1");
              ("amount", num 10)])].
Proof.
  eexists _, _. split; [vm_compute; reflexivity|].
  destruct (billing_reports_outcome flaky_env sample_event _ _ eq_refl)
    as [(c & d & _ & _ & Hsent)|(c & e & Hlast & _)].
  - exact Hsent.
  - discriminate Hlast.
Defined.

(** X4: once a payment attempt fails with a [NonRetriableError] or with a
    message that contains "card_lost_or_stolen", the run makes no further
    payment attempt and does not wait. *)
Theorem billing_permanent_decline_stops (env : environment)
    (ev : billing_event) (tr1 tr2 : list event) (c : call) (e : exn) :
  trace (billing_run env ev) = (tr1 ++ Called c (Throws e) :: tr2)%list →
  is_payment c = true →
  permanent e = true →
  dunning_steps tr2 = [].
Proof.
  intros Htr. revert c e Htr.
  cut (each_with_rest
         (λ x rest, ∀ c e, x = Called c (Throws e) → is_payment c = true →
            permanent e = true → dunning_steps rest = [])
         (trace (billing_run env ev))).
  { intros H c e Htr.
    exact (each_with_rest_split _ _ H tr1 _ tr2 Htr c e eq_refl). }
  unfold permanent. all_runs env.
  all: cbn [trace each_with_rest]; split_and?; try exact I.
  all: intros c' e' [= <- <-] Hpay Hperm.
  all: first [ discriminate Hpay | congruence | vm_compute; reflexivity ].
Qed.

Lemma billing_permanent_decline_stops_witness :
  ∃ tr1 c e tr2,
    trace (billing_run stolen_card_env sample_event)
      = (tr1 ++ Called c (Throws e) :: tr2)%list ∧
    is_payment c = true ∧
    permanent e = true ∧
    dunning_steps tr2 = [].
Proof.
  eexists [_], _, _, _.
  split; [lazy; reflexivity|].
  split; [reflexivity|].
  split; [reflexivity|].
  eapply (billing_permanent_decline_stops stolen_card_env sample_event [_]);
    reflexivity.
Defined.

(** X5: once a payment attempt has returned, the run makes no further
    payment attempt and does not wait: a subscription is charged at most
    once. *)
Theorem billing_charges_once (env : environment) (ev : billing_event)
    (tr1 tr2 : list event) (c : call) (d : data) :
  trace (billing_run env ev) = (tr1 ++ Called c (Returns d) :: tr2)%list →
  is_payment c = true →
  dunning_steps tr2 = [].
Proof.
  intros Htr. revert c d Htr.
  cut (each_with_rest
         (λ x rest, ∀ c d, x = Called c (Returns d) → is_payment c = true →
            dunning_steps rest = [])
         (trace (billing_run env ev))).
  { intros H c d Htr.
    exact (each_with_rest_split _ _ H tr1 _ tr2 Htr c d eq_refl). }
  all_runs env.
  all: cbn [trace each_with_rest]; split_and?; try exact I.
  all: intros c' d' [= <- <-] Hpay.
  all: first [ discriminate Hpay | vm_compute; reflexivity ].
Qed.

Lemma billing_charges_once_witness :
  ∃ tr1 c d tr2,
    trace (billing_run flaky_env sample_event)
      = (tr1 ++ Called c (Returns d) :: tr2)%list ∧
    is_payment c = true ∧
    dunning_steps tr2 = [].
Proof.
  eexists [_; _; _; _], _, _, _.
  split; [lazy; reflexivity|].
  split; [reflexivity|].
  eapply (billing_charges_once flaky_env sample_event [_; _; _; _]);
    reflexivity.
Defined.

(** X6: [processSubscriptionBilling] gives up on an error that is not
    permanent only at the end of the schedule: if it returns after a last
    attempt that threw such an error, all three attempts and both waits
    were made. *)
Theorem billing_gives_up_after_schedule (env : environment)
    (ev : billing_event) (v : data) (tr : list event) (c : call) (e : exn) :
  billing_run env ev = Done v tr →
  last (payment_attempts tr) = Some (c, Throws e) →
  permanent e = false →
  dunning_steps tr = dunning_schedule ev.
Proof.
  unfold permanent. all_runs env.
  all: intros Hrun; try discriminate Hrun; injection Hrun as <- <-.
  all: intros Hlast Hperm.
  all: first
    [ discriminate Hlast
    | vm_compute; reflexivity
    | vm_compute in Hlast; injection Hlast as <- <-; congruence ].
Qed.

Lemma billing_gives_up_after_schedule_witness :
  ∃ v tr c e,
    billing_run failing_charge_env sample_event = Done v tr ∧
    last (payment_attempts tr) = Some (c, Throws e) ∧
    permanent e = false ∧
    dunning_steps tr = dunning_schedule sample_event.
Proof.
  eexists _, _, _, _.
  split; [lazy; reflexivity|].
  split; [lazy; reflexivity|].
  split; [reflexivity|].
  exact (billing_gives_up_after_schedule failing_charge_env sample_event
           _ _ _ _ eq_refl eq_refl eq_refl).
Defined.

(** X7: a failing charge never makes [processSubscriptionBilling] throw.
    When the handler throws, the error is the one that the last step call
    of the log threw, and that call is not a payment attempt. *)
Theorem billing_charge_errors_contained (env : environment)
    (ev : billing_event) (e : exn) (tr : list event) :
  billing_run env ev = Threw e tr →
  ∃ c, last tr = Some (Called c (Throws e)) ∧ is_payment c = false.
Proof.
  all_runs env.
  all: intros Hrun; try discriminate Hrun; injection Hrun as <- <-.
  all: eexists; split; reflexivity.
Qed.

Lemma billing_charge_errors_contained_witness :
  ∃ e tr c,
    billing_run broken_sleep_env sample_event = Threw e tr ∧
    last tr = Some (Called c (Throws e)) ∧ is_sleep c = true.
Proof.
  eexists _, _, _.
  split; [lazy; reflexivity|].
  destruct (billing_charge_errors_contained broken_sleep_env sample_event _ _ eq_refl)
    as (c & Hlast & _).
  split; [lazy; reflexivity|reflexivity].
Defined.


End BillingFacts.

(** ** Order processing *)

Lemma differs_false (d : data) (s : string) :
  differs d s = false → d = DStr s.
Proof.
  destruct d; try discriminate. cbn [differs].
  intros H. apply negb_false_iff, bool_decide_eq_true in H. by subst.
Qed.

Section OrderFacts.
Import Order.

(** The page's [emailService] has no [sendOrderConfirmation]. *)
Lemma email_call_missing (eng : engine) (args : list data) :
  email_call eng "sendOrderConfirmation" args =
  Raises (Exn (type_error_message eng DUndefined "sendOrderConfirmation") false).
Proof. reflexivity. Qed.

Ltac run_order :=
  cbv [order_run orderOrchestrator payment_invocation
       wbind wret perform log try_catch throw read app];
  rewrite ?email_call_missing.

Ltac branch env :=
  match goal with
  | |- context [match env ?tr ?c with _ => _ end] =>
      destruct (env tr c) as [?d|?e] eqn:?Henv
  | |- context [if ?b then _ else _] => destruct b eqn:?Hcond
  end.

Ltac all_orders env := repeat (run_order; branch env); run_order.

(** X9: [orderOrchestrator] touches the stock, the fulfilment function and
    the confirmation email only for a paid order: if one of these steps is
    called, the payment function was invoked first and returned an object
    whose [status] is "succeeded". *)
Theorem order_delivers_only_paid (eng : engine) (env : environment)
    (ev : order_event) (c : call) (o : outcome) :
  (c, o) ∈ calls (trace (order_run eng env ev)) →
  is_delivery c = true →
  paid ev (trace (order_run eng env ev)).
Proof.
  intros Hin.
  cut (Forall (λ co : call * outcome,
         is_delivery co.1 = true → paid ev (trace (order_run eng env ev)))
         (calls (trace (order_run eng env ev)))).
  { intros H. by apply (proj1 (Forall_forall _ _) H (c, o)). }
  clear Hin. unfold paid. all_orders env.
  all: cbn [trace calls]; repeat constructor.
  all: cbn [fst]; intros Hd; vm_compute in Hd; try discriminate Hd.
  all: eexists; split; [reflexivity|by apply differs_false].
Qed.

Lemma order_delivers_only_paid_witness :
  ∃ c o,
    (c, o) ∈ calls (trace (order_run sample_engine paying_env sample_event)) ∧
    is_delivery c = true ∧
    paid sample_event (trace (order_run sample_engine paying_env sample_event)).
Proof.
  exists (Run "update-inventory"
            (Service "inventoryService.decrementStock" [items sample_event])),
    (Returns (DObj [("trackingNumber", DStr "track_1")])).
  assert (Hin :
    (Run "update-inventory"
       (Service "inventoryService.decrementStock" [items sample_event]),
     Returns (DObj [("trackingNumber", DStr "track_1")]))
    ∈ calls (trace (order_run sample_engine paying_env sample_event))).
  { by apply (list_elem_of_lookup_2 _ 1%nat). }
  split; [exact Hin|]. split; [reflexivity|].
  exact (order_delivers_only_paid sample_engine paying_env sample_event
           _ _ Hin eq_refl).
Defined.

(** X10: when the payment function throws or returns anything but status
    "succeeded", [orderOrchestrator] calls exactly two steps, the payment
    invocation and the notification [user/payment_failed], and throws.  If
    the notification was sent, what it throws is the [NonRetriableError]
    "Payment processing critically failed." *)
Theorem order_unpaid_stops (eng : engine) (env : environment)
    (ev : order_event) :
  paid ev (trace (order_run eng env ev)) ∨
  ∃ e tr,
    order_run eng env ev = Threw e tr ∧
    step_ids tr =
      ["invoke-process-payment"; "send-payment-failed-notification"] ∧
    (sent_events tr = [] ∨
     ∃ reason,
       sent_events tr =
         [("user/payment_failed",
           DObj [("userId", userId ev);
                 ("orderId", orderId ev);
                 ("reason", DStr reason)])] ∧
       e = Exn "Payment processing critically failed." true).
Proof.
  unfold paid. all_orders env.
  all: first
    [ left; eexists; split; [reflexivity|by apply differs_false]
    | right; eexists _, _; split; [reflexivity|];
      split; [reflexivity|];
      first [ by left | right; eexists; split; reflexivity ] ].
Qed.

(** X11: as the page stands, [orderOrchestrator] never returns: every run
    ends by throwing.  The callback of send-order-confirmation-email calls
    a method that the page's [emailService] does not have, so whenever
    that step is reached, after the payment, the stock update and the
    fulfilment, it throws, and what it throws is what the handler
    throws. *)
Theorem order_never_completes (eng : engine) (env : environment)
    (ev : order_event) :
  ∃ e tr,
    order_run eng env ev = Threw e tr ∧
    ∀ c o,
      (c, o) ∈ calls tr →
      step_id c = "send-order-confirmation-email" →
      (∃ e', c = Run "send-order-confirmation-email" (Raises e')) ∧
      o = Throws e ∧
      step_ids tr =
        ["invoke-process-payment"; "update-inventory"; "invoke-fulfill-order";
         "send-order-confirmation-email"].
Proof.
  cut (∃ e tr,
         order_run eng env ev = Threw e tr ∧
         Forall (λ co : call * outcome,
           step_id co.1 = "send-order-confirmation-email" →
           (∃ e', co.1 = Run "send-order-confirmation-email" (Raises e')) ∧
           co.2 = Throws e ∧
           step_ids tr =
             ["invoke-process-payment"; "update-inventory";
              "invoke-fulfill-order"; "send-order-confirmation-email"])
           (calls tr)).
  { intros (e & tr & Hrun & H). exists e, tr. split; [exact Hrun|].
    intros c o Hin. exact (proj1 (Forall_forall _ _) H (c, o) Hin). }
  all_orders env.
  all: eexists _, _; split; [reflexivity|].
  all: cbn [calls]; repeat first [apply Forall_nil_2 | apply Forall_cons_2].
  all: cbn [fst snd step_id]; intros Hid; try discriminate Hid.
  all: split_and!; [by eexists|reflexivity|reflexivity].
Qed.

Lemma order_never_completes_witness :
  ∃ e tr,
    order_run sample_engine paying_env sample_event = Threw e tr ∧
    step_ids tr =
      ["invoke-process-payment"; "update-inventory"; "invoke-fulfill-order";
       "send-order-confirmation-email"].
Proof.
  destruct (order_never_completes sample_engine paying_env sample_event)
    as (e & tr & Hrun & H).
  exists e, tr. split; [exact Hrun|].
  vm_compute in Hrun. injection Hrun as <- <-.
  edestruct H as (_ & _ & Hids);
    [by apply (list_elem_of_lookup_2 _ 3%nat)|reflexivity|exact Hids].
Defined.

End OrderFacts.

(** ** Content moderation *)

Lemma join_result (eng : engine) (sep : string) (d : data)
    (env : environment) (tr : list event) :
  (∃ s, join eng sep d env tr = Done s tr) ∨
  (∃ e, join eng sep d env tr = Threw e tr).
Proof. destruct d; cbn; eauto. Qed.

Section ModerationFacts.
Import Moderation.

Ltac run_moderation :=
  cbv [moderation_run contentModerationPipeline analysis review_task
       review_wait wbind wret perform log try_catch throw read app].

Ltac branch env :=
  match goal with
  | |- context [match env ?tr ?c with _ => _ end] =>
      destruct (env tr c) as [?d|?e] eqn:?Henv
  | |- context [join ?eng ?sep ?d env ?tr] =>
      let Hj := fresh "Hjoin" in
      destruct (join_result eng sep d env tr) as [[?s Hj]|[?e Hj]];
      rewrite Hj
  | |- context [if ?b then _ else _] => destruct b eqn:?Hcond
  end.

Ltac all_moderations env := repeat (run_moderation; branch env); run_moderation.

(** X12: a run of [contentModerationPipeline] calls at most one of the
    steps that settle the content: auto-approve, auto-reject, the human
    decision, the timeout escalation. *)
Theorem moderation_decides_once (eng : engine) (env : environment)
    (ev : content_event) :
  (List.length (decisions (trace (moderation_run eng env ev))) ≤ 1)%nat.
Proof.
  all_moderations env.
  all: vm_compute; lia.
Qed.

(** X13: content is approved automatically only when the analysis
    returned a truthy [isSafe] and a [confidence] above 0.95, and then no
    other step is called: no review task is queued. *)
Theorem moderation_auto_approve_sound (eng : engine) (env : environment)
    (ev : content_event) (c : call) (o : outcome) :
  (c, o) ∈ calls (trace (moderation_run eng env ev)) →
  step_id c = "auto-approve-content" →
  ∃ ai,
    calls (trace (moderation_run eng env ev))
      = [(analysis ev, Returns ai); (c, o)] ∧
    truthy (property "isSafe" ai) = true ∧
    greater eng (property "confidence" ai) threshold_approve = true.
Proof.
  intros Hin Hid.
  cut (Forall (λ co : call * outcome,
         step_id co.1 = "auto-approve-content" →
         ∃ ai,
           calls (trace (moderation_run eng env ev))
             = [(analysis ev, Returns ai); co] ∧
           truthy (property "isSafe" ai) = true ∧
           greater eng (property "confidence" ai) threshold_approve = true)
         (calls (trace (moderation_run eng env ev)))).
  { intros H. by apply (proj1 (Forall_forall _ _) H (c, o)). }
  clear. all_moderations env.
  all: cbn [trace calls]; repeat constructor.
  all: cbn [fst step_id]; intros Hid; try discriminate Hid.
  all: eexists; split; [reflexivity|].
  all: match goal with
       | H : _ && _ = true |- _ => apply andb_true_iff in H as [? ?]
       end; by split.
Qed.

Lemma moderation_auto_approve_sound_witness :
  ∃ c o ai,
    (c, o) ∈ calls (trace (moderation_run sample_engine confident_safe_env
                             sample_event)) ∧
    step_id c = "auto-approve-content" ∧
    calls (trace (moderation_run sample_engine confident_safe_env sample_event))
      = [(analysis sample_event, Returns ai); (c, o)].
Proof.
  exists (Run "auto-approve-content"
            (Service "contentService.updateStatus"
               [DStr "content_1"; DStr "approved"])),
    (Returns DUndefined).
  assert (Hin :
    (Run "auto-approve-content"
       (Service "contentService.updateStatus"
          [DStr "content_1"; DStr "approved"]),
     Returns DUndefined)
    ∈ calls (trace (moderation_run sample_engine confident_safe_env
                      sample_event))).
  { by apply (list_elem_of_lookup_2 _ 1%nat). }
  destruct (moderation_auto_approve_sound sample_engine confident_safe_env
              sample_event _ _ Hin eq_refl) as (ai & Hcalls & _).
  exists ai. split; [exact Hin|]. split; [reflexivity|exact Hcalls].
Defined.

(** X14: content is rejected automatically only when the analysis
    returned a falsy [isSafe] and a [confidence] above 0.90, and then no
    other step is called. *)
Theorem moderation_auto_reject_sound (eng : engine) (env : environment)
    (ev : content_event) (c : call) (o : outcome) :
  (c, o) ∈ calls (trace (moderation_run eng env ev)) →
  step_id c = "auto-reject-content" →
  ∃ ai,
    calls (trace (moderation_run eng env ev))
      = [(analysis ev, Returns ai); (c, o)] ∧
    truthy (property "isSafe" ai) = false ∧
    greater eng (property "confidence" ai) threshold_reject = true.
Proof.
  intros Hin Hid.
  cut (Forall (λ co : call * outcome,
         step_id co.1 = "auto-reject-content" →
         ∃ ai,
           calls (trace (moderation_run eng env ev))
             = [(analysis ev, Returns ai); co] ∧
           truthy (property "isSafe" ai) = false ∧
           greater eng (property "confidence" ai) threshold_reject = true)
         (calls (trace (moderation_run eng env ev)))).
  { intros H. by apply (proj1 (Forall_forall _ _) H (c, o)). }
  clear. all_moderations env.
  all: cbn [trace calls]; repeat constructor.
  all: cbn [fst step_id]; intros Hid; try discriminate Hid.
  all: eexists; split; [reflexivity|].
  all: match goal with
       | H : negb _ && _ = true |- _ =>
           apply andb_true_iff in H as [?%negb_true_iff ?]
       end; by split.
Qed.

Lemma moderation_auto_reject_sound_witness :
  ∃ c o ai,
    (c, o) ∈ calls (trace (moderation_run sample_engine confident_unsafe_env
                             sample_event)) ∧
    step_id c = "auto-reject-content" ∧
    calls (trace (moderation_run sample_engine confident_unsafe_env
                    sample_event))
      = [(analysis sample_event, Returns ai); (c, o)].
Proof.
  exists (Run "auto-reject-content"
            (Service "contentService.updateStatus"
               [DStr "content_1"; DStr "rejected";
                DArr [DStr "spam"; DStr "abuse"]])),
    (Returns DUndefined).
  assert (Hin :
    (Run "auto-reject-content"
       (Service "contentService.updateStatus"
          [DStr "content_1"; DStr "rejected";
           DArr [DStr "spam"; DStr "abuse"]]),
     Returns DUndefined)
    ∈ calls (trace (moderation_run sample_engine confident_unsafe_env
                      sample_event))).
  { by apply (list_elem_of_lookup_2 _ 1%nat). }
  destruct (moderation_auto_reject_sound sample_engine confident_unsafe_env
              sample_event _ _ Hin eq_refl) as (ai & Hcalls & _).
  exists ai. split; [exact Hin|]. split; [reflexivity|exact Hcalls].
Defined.

(** The human decision and the escalation come last, after the analysis,
    the review task and the wait. *)
Lemma moderation_settled_after_review (eng : engine) (env : environment)
    (ev : content_event) (c : call) (o : outcome) :
  (c, o) ∈ calls (trace (moderation_run eng env ev)) →
  step_id c = "apply-human-decision" ∨ step_id c = "handle-review-timeout" →
  ∃ ai t r,
    calls (trace (moderation_run eng env ev))
      = [(analysis ev, Returns ai);
         (review_task ev ai, Returns t);
         (review_wait eng ev, Returns r);
         (c, o)] ∧
    (truthy r = true ↔ step_id c = "apply-human-decision").
Proof.
  intros Hin Hid.
  cut (Forall (λ co : call * outcome,
         step_id co.1 = "apply-human-decision" ∨
         step_id co.1 = "handle-review-timeout" →
         ∃ ai t r,
           calls (trace (moderation_run eng env ev))
             = [(analysis ev, Returns ai);
                (review_task ev ai, Returns t);
                (review_wait eng ev, Returns r);
                co] ∧
           (truthy r = true ↔ step_id co.1 = "apply-human-decision"))
         (calls (trace (moderation_run eng env ev)))).
  { intros H. by apply (proj1 (Forall_forall _ _) H (c, o)). }
  clear. all_moderations env.
  all: cbn [trace calls]; repeat constructor.
  all: cbn [fst step_id]; intros [Hid|Hid]; try discriminate Hid.
  all: eexists _, _, _; split; [reflexivity|].
  all: cbn [fst step_id]; split; intros H; congruence.
Qed.

(** What follows a review wait that returned: the escalation after a falsy
    result, the human decision after a truthy one, unless the event has no
    [data], when the handler throws at once. *)
Lemma moderation_after_review_wait (eng : engine) (env : environment)
    (ev : content_event) (ai t r : data) (rest : list (call * outcome)) :
  calls (trace (moderation_run eng env ev))
    = (analysis ev, Returns ai) :: (review_task ev ai, Returns t)
        :: (review_wait eng ev, Returns r) :: rest →
  (truthy r = false → ∃ o, rest = [(escalation ev, o)]) ∧
  (truthy r = true → nullish (property "data" r) = false →
     ∃ o, rest = [(human_decision ev (property "data" r), o)]) ∧
  (truthy r = true → nullish (property "data" r) = true →
     rest = [] ∧ ∃ e tr, moderation_run eng env ev = Threw e tr).
Proof.
  revert ai t r rest. all_moderations env.
  all: intros ai t r rest Hcalls; cbn [trace calls] in Hcalls.
  all: simplify_eq.
  all: split_and!; intros; try congruence; try absurd_event.
  all: first
    [ eexists; reflexivity
    | split; [reflexivity|eexists _, _; reflexivity] ].
Qed.

(** X15: in [contentModerationPipeline] the human decision and the timeout
    escalation are called only as the last step after the analysis, the
    review task and the wait for the review have returned, the decision
    after a truthy result of the wait and the escalation after a falsy
    one.  Conversely, once these three steps have returned, a falsy result
    is always followed by the escalation and a truthy one by the decision
    read from the event, except that for an event without [data] the
    handler throws without a further step. *)
Theorem moderation_human_path (eng : engine) (env : environment)
    (ev : content_event) :
  (∀ c o,
     (c, o) ∈ calls (trace (moderation_run eng env ev)) →
     step_id c = "apply-human-decision" ∨ step_id c = "handle-review-timeout" →
     ∃ ai t r,
       calls (trace (moderation_run eng env ev))
         = [(analysis ev, Returns ai);
            (review_task ev ai, Returns t);
            (review_wait eng ev, Returns r);
            (c, o)] ∧
       (truthy r = true ↔ step_id c = "apply-human-decision")) ∧
  (∀ ai t r rest,
     calls (trace (moderation_run eng env ev))
       = (analysis ev, Returns ai) :: (review_task ev ai, Returns t)
           :: (review_wait eng ev, Returns r) :: rest →
     (truthy r = false → ∃ o, rest = [(escalation ev, o)]) ∧
     (truthy r = true → nullish (property "data" r) = false →
        ∃ o, rest = [(human_decision ev (property "data" r), o)]) ∧
     (truthy r = true → nullish (property "data" r) = true →
        rest = [] ∧ ∃ e tr, moderation_run eng env ev = Threw e tr)).
Proof.
  split.
  - apply moderation_settled_after_review.
  - apply moderation_after_review_wait.
Qed.

Lemma moderation_human_path_witness :
  ∃ ai t r o,
    calls (trace (moderation_run sample_engine reviewed_env sample_event))
      = [(analysis sample_event, Returns ai);
         (review_task sample_event ai, Returns t);
         (review_wait sample_engine sample_event, Returns r);
         (human_decision sample_event (property "data" r), o)] ∧
    truthy r = true.
Proof.
  destruct (proj2 (moderation_human_path sample_engine reviewed_env
                     sample_event) _ _ _ _ eq_refl) as (_ & Hdecide & _).
  destruct (Hdecide eq_refl eq_refl) as [o Hrest].
  vm_compute in Hrest. injection Hrest as <-.
  eexists _, _, _, _. split; [reflexivity|reflexivity].
Defined.

(** X16: when [contentModerationPipeline] returns, exactly one settling
    step was called and it returned, and the result reports what that step
    did: the status it set and the method (auto, human or timeout). *)
Theorem moderation_reports_decision (eng : engine) (env : environment)
    (ev : content_event) (v : data) (tr : list event) :
  moderation_run eng env ev = Done v tr →
  ∃ c d,
    decisions tr = [(c, Returns d)] ∧
    ((c = Run "auto-approve-content"
            (Service "contentService.updateStatus"
               [contentId ev; DStr "approved"]) ∧
      v = DObj [("contentId", contentId ev);
                ("status", DStr "approved");
                ("method", DStr "auto")]) ∨
     (∃ categories reason,
        c = Run "auto-reject-content"
              (Service "contentService.updateStatus"
                 [contentId ev; DStr "rejected"; categories]) ∧
        v = DObj [("contentId", contentId ev);
                  ("status", DStr "rejected");
                  ("method", DStr "auto");
                  ("reason", DStr reason)]) ∨
     (∃ decision comments reviewedBy,
        c = Run "apply-human-decision"
              (Service "contentService.updateStatus"
                 [contentId ev; decision; comments; reviewedBy]) ∧
        v = DObj [("contentId", contentId ev);
                  ("status", decision);
                  ("method", DStr "human");
                  ("reviewedBy", reviewedBy)]) ∨
     (c = Run "handle-review-timeout"
            (Service "escalationService.notifyAdmins"
               [contentId ev; DStr "Human review timed out"]) ∧
      v = DObj [("contentId", contentId ev);
                ("status", DStr "pending_escalation");
                ("method", DStr "timeout")])).
Proof.
  all_moderations env.
  all: intros Hrun; try discriminate Hrun; injection Hrun as <- <-.
  all: eexists _, _; split; [vm_compute; reflexivity|].
  all: first
    [ left; split; reflexivity
    | right; left; eexists _, _; split; reflexivity
    | right; right; left; eexists _, _, _; split; reflexivity
    | right; right; right; split; reflexivity ].
Qed.

Lemma moderation_reports_decision_witness :
  ∃ v tr,
    moderation_run sample_engine reviewed_env sample_event = Done v tr ∧
    ∃ c d, decisions tr = [(c, Returns d)].
Proof.
  eexists _, _. split; [vm_compute; reflexivity|].
  destruct (moderation_reports_decision sample_engine reviewed_env
              sample_event _ _ eq_refl) as (c & d & Hdec & _).
  by exists c, d.
Defined.
End ModerationFacts.

(** ** User onboarding *)

Section OnboardingFacts.
Import Onboarding.

Ltac run_onboarding :=
  cbv [onboarding_run userOnboardingSequence welcome tips activation_wait
       wbind wret perform log try_catch throw read app].

Ltac branch env :=
  match goal with
  | |- context [match env ?tr ?c with _ => _ end] =>
      destruct (env tr c) as [?d|?e] eqn:?Henv
  | |- context [if ?b then _ else _] => destruct b eqn:?Hcond
  end.

Ltac all_onboardings env := repeat (run_onboarding; branch env); run_onboarding.

(** The congratulation and the re-engagement email come last, after the
    welcome email, the sleep, the tips and the wait. *)
Lemma onboarding_follow_up_last (eng : engine) (env : environment)
    (ev : signup_event) (c : call) (o : outcome) :
  (c, o) ∈ calls (trace (onboarding_run eng env ev)) →
  step_id c = "send-activation-congrats-email" ∨
  step_id c = "send-re-engagement-email" →
  ∃ w s t a,
    calls (trace (onboarding_run eng env ev))
      = [(welcome ev, Returns w);
         (Sleep "wait-2-days" "2d", Returns s);
         (tips ev, Returns t);
         (activation_wait eng ev, Returns a);
         (c, o)] ∧
    (truthy a = true ↔ step_id c = "send-activation-congrats-email").
Proof.
  intros Hin Hid.
  cut (Forall (λ co : call * outcome,
         step_id co.1 = "send-activation-congrats-email" ∨
         step_id co.1 = "send-re-engagement-email" →
         ∃ w s t a,
           calls (trace (onboarding_run eng env ev))
             = [(welcome ev, Returns w);
                (Sleep "wait-2-days" "2d", Returns s);
                (tips ev, Returns t);
                (activation_wait eng ev, Returns a);
                co] ∧
           (truthy a = true ↔ step_id co.1 = "send-activation-congrats-email"))
         (calls (trace (onboarding_run eng env ev)))).
  { intros H. by apply (proj1 (Forall_forall _ _) H (c, o)). }
  clear. all_onboardings env.
  all: cbn [trace calls]; repeat constructor.
  all: cbn [fst step_id]; intros [Hid|Hid]; try discriminate Hid.
  all: eexists _, _, _, _; split; [reflexivity|].
  all: cbn [fst step_id]; split; intros H; congruence.
Qed.

(** What follows an activation wait that returned: the re-engagement email
    after a falsy result, the congratulation after a truthy one, unless
    the event has no [data], when the handler throws at once. *)
Lemma onboarding_after_wait (eng : engine) (env : environment)
    (ev : signup_event) (w s t a : data) (rest : list (call * outcome)) :
  calls (trace (onboarding_run eng env ev))
    = (welcome ev, Returns w) :: (Sleep "wait-2-days" "2d", Returns s)
        :: (tips ev, Returns t) :: (activation_wait eng ev, Returns a)
        :: rest →
  (truthy a = false → ∃ o, rest = [(re_engagement ev, o)]) ∧
  (truthy a = true → nullish (property "data" a) = false →
     ∃ o, rest = [(congratulation ev (property "data" a), o)]) ∧
  (truthy a = true → nullish (property "data" a) = true →
     rest = [] ∧ ∃ e tr, onboarding_run eng env ev = Threw e tr).
Proof.
  revert w s t a rest. all_onboardings env.
  all: intros w s t a rest Hcalls; cbn [trace calls] in Hcalls.
  all: simplify_eq.
  all: split_and!; intros; try congruence; try absurd_event.
  all: first
    [ eexists; reflexivity
    | split; [reflexivity|eexists _, _; reflexivity] ].
Qed.

(** X17: [userOnboardingSequence] sends the congratulation or the
    re-engagement email only as the last step after the welcome email, the
    sleep of two days, the tips and the wait for the activation have
    returned, the congratulation after a truthy result of the wait and the
    re-engagement after a falsy one, so no run sends both.  Conversely,
    once these four steps have returned, a falsy result is always followed
    by the re-engagement email and a truthy one by the congratulation with
    the feature name of the event, except that for an event without
    [data] the handler throws without sending either. *)
Theorem onboarding_follow_up (eng : engine) (env : environment)
    (ev : signup_event) :
  (∀ c o,
     (c, o) ∈ calls (trace (onboarding_run eng env ev)) →
     step_id c = "send-activation-congrats-email" ∨
     step_id c = "send-re-engagement-email" →
     ∃ w s t a,
       calls (trace (onboarding_run eng env ev))
         = [(welcome ev, Returns w);
            (Sleep "wait-2-days" "2d", Returns s);
            (tips ev, Returns t);
            (activation_wait eng ev, Returns a);
            (c, o)] ∧
       (truthy a = true ↔ step_id c = "send-activation-congrats-email")) ∧
  (∀ w s t a rest,
     calls (trace (onboarding_run eng env ev))
       = (welcome ev, Returns w) :: (Sleep "wait-2-days" "2d", Returns s)
           :: (tips ev, Returns t) :: (activation_wait eng ev, Returns a)
           :: rest →
     (truthy a = false → ∃ o, rest = [(re_engagement ev, o)]) ∧
     (truthy a = true → nullish (property "data" a) = false →
        ∃ o, rest = [(congratulation ev (property "data" a), o)]) ∧
     (truthy a = true → nullish (property "data" a) = true →
        rest = [] ∧ ∃ e tr, onboarding_run eng env ev = Threw e tr)).
Proof.
  split.
  - apply onboarding_follow_up_last.
  - apply onboarding_after_wait.
Qed.

Lemma onboarding_follow_up_witness :
  ∃ w s t a o,
    calls (trace (onboarding_run sample_engine idle_env sample_event))
      = [(welcome sample_event, Returns w);
         (Sleep "wait-2-days" "2d", Returns s);
         (tips sample_event, Returns t);
         (activation_wait sample_engine sample_event, Returns a);
         (re_engagement sample_event, o)] ∧
    truthy a = false.
Proof.
  destruct (proj2 (onboarding_follow_up sample_engine idle_env sample_event)
              _ _ _ _ _ eq_refl) as (Hfalsy & _).
  destruct (Hfalsy eq_refl) as [o Hrest].
  vm_compute in Hrest. injection Hrest as <-.
  eexists _, _, _, _, _. split; [reflexivity|reflexivity].
Defined.

End OnboardingFacts.
